(** * album-song-names: the track lookup of [AlbumTrackFinder]

    A shallow embedding of [fetchTracks], the one function of the
    application that carries logic, in its two versions:

    - the current component (the one that imports [./App.css]), whose
      tracks are records [{ number, name }];
    - the earlier component [src/App.jsx], whose tracks are bare names.

    JavaScript strings are sequences of UTF-16 code units, and every
    operation the function uses ([trim], [split], [includes], the regular
    expression without the [u] flag) works code unit by code unit, so a
    string is embedded as a list of code units. *)

From Stdlib Require Import String Ascii List NArith ZArith Bool Lia.
Import ListNotations.

Set Implicit Arguments.

(** ** Strings *)

Definition char := N.
Definition jsstring := list char.

(** An ASCII literal as a JavaScript string. *)
Fixpoint lit (s : string) : jsstring :=
  match s with
  | EmptyString => []
  | String a s' => N_of_ascii a :: lit s'
  end.
Arguments lit s%_string.

Definition LF : char := 10%N.
Definition CR : char := 13%N.
Definition QUOTE : char := 34%N.
Definition DOT : char := 46%N.

Fixpoint eqs (a b : jsstring) : bool :=
  match a, b with
  | [], [] => true
  | x :: a', y :: b' => (x =? y)%N && eqs a' b'
  | _, _ => false
  end.

(** Truthiness of a string: [!s] is true exactly for the empty string. *)
Definition truthy_string (s : jsstring) : bool :=
  match s with [] => false | _ :: _ => true end.

(** *** Character classes

    [LineTerminator] and [WhiteSpace] of ECMA-262.  [String.prototype.trim]
    strips both, and [\s] of a regular expression is the same set. *)

Definition isLineTerminator (c : char) : bool :=
  ((c =? 10) || (c =? 13) || (c =? 8232) || (c =? 8233))%N.

Definition isWhiteSpace (c : char) : bool :=
  ((c =? 9) || (c =? 11) || (c =? 12) || (c =? 32) || (c =? 160)
   || (c =? 5760) || ((8192 <=? c) && (c <=? 8202))
   || (c =? 8239) || (c =? 8287) || (c =? 12288) || (c =? 65279))%N.

(** [\s] *)
Definition isSpace (c : char) : bool := isWhiteSpace c || isLineTerminator c.

(** [\d] *)
Definition isDigit (c : char) : bool := ((48 <=? c) && (c <=? 57))%N.

(** [.] without the [s] flag *)
Definition isAny (c : char) : bool := negb (isLineTerminator c).

(** *** [trim], [split], [includes] *)

Fixpoint trimStart (s : jsstring) : jsstring :=
  match s with
  | c :: s' => if isSpace c then trimStart s' else s
  | [] => []
  end.

Definition trimEnd (s : jsstring) : jsstring := rev (trimStart (rev s)).

Definition trim (s : jsstring) : jsstring := trimEnd (trimStart s).

(** [s.split('\n')]: the pieces between line feeds; the empty string
    gives one empty piece.  ([split] stops at 2^32 - 1 pieces, more than
    a string that an engine can hold has.) *)
Fixpoint split (s : jsstring) : list jsstring :=
  match s with
  | [] => [[]]
  | c :: s' =>
      if (c =? LF)%N then [] :: split s'
      else match split s' with
           | l :: ls => (c :: l) :: ls
           | [] => [[c]]
           end
  end.

Fixpoint startsWith (s p : jsstring) {struct p} : bool :=
  match p, s with
  | [], _ => true
  | x :: p', y :: s' => (x =? y)%N && startsWith s' p'
  | _ :: _, [] => false
  end.

(** [s.includes(p)] *)
Fixpoint includes (s p : jsstring) : bool :=
  startsWith s p ||
  match s with
  | [] => false
  | _ :: s' => includes s' p
  end.

(** [p] occurs in [s]. *)
Definition Contains (s p : jsstring) : Prop :=
  exists pre post, s = pre ++ p ++ post.

(** ** Numbers

    A track number is a JavaScript Number.  The ones the program makes
    are [index + 1] and [parseInt(digits, 10)]: non-negative integers, or
    [Infinity] when the digits exceed the range of a double. *)

Inductive Number :=
  | Fin (z : Z)
  | Infinity.

(** The Number value of a non-negative integer: the nearest double, ties
    to even, [Infinity] from 2^1024 on. *)
Definition toNumber (z : Z) : Number :=
  if (z <? 2 ^ 53)%Z then Fin z
  else
    let e := (Z.log2 z - 52)%Z in
    let q := Z.shiftr z e in
    let r := (z - Z.shiftl q e)%Z in
    let half := Z.shiftl 1 (e - 1) in
    let q' := if ((half <? r) || ((r =? half) && Z.odd q))%Z
              then (q + 1)%Z else q in
    let v := Z.shiftl q' e in
    if (2 ^ 1024 <=? v)%Z then Infinity else Fin v.

(** The mathematical integer a string of decimal digits denotes. *)
Fixpoint mathInt (acc : Z) (ds : jsstring) : Z :=
  match ds with
  | [] => acc
  | d :: ds' => mathInt (10 * acc + (Z.of_N d - 48)) ds'
  end.

(** [parseInt(ds, 10)] on a non-empty string of decimal digits, which is
    all the regular expression's first group can hold.  (ECMA-262 lets an
    engine read the digits after the twentieth as zeros; all are read
    here.) *)
Definition parseInt (ds : jsstring) : Number := toNumber (mathInt 0 ds).

(** ** The regular expression [/^(\d+)\.\s*(.+)$/]

    A backtracking matcher in continuation style: a greedy quantifier
    first takes one more character and falls back to the continuation on
    what it has when the rest of the pattern fails. *)

Section Backtracking.
Variable R : Type.

(** [p*] followed by [k]; [acc] is what the quantifier has taken,
    in reverse. *)
Fixpoint star (p : char -> bool) (k : jsstring -> jsstring -> option R)
         (acc : jsstring) (s : jsstring) : option R :=
  match s with
  | c :: s' =>
      if p c then
        match star p k (c :: acc) s' with
        | Some r => Some r
        | None => k (rev acc) s
        end
      else k (rev acc) s
  | [] => k (rev acc) s
  end.

(** [p+] followed by [k]. *)
Definition plus (p : char -> bool) (k : jsstring -> jsstring -> option R)
           (s : jsstring) : option R :=
  match s with
  | c :: s' => if p c then star p k [c] s' else None
  | [] => None
  end.
End Backtracking.

(** The continuation after [\d+]: a period, then [k']. *)
Definition thenDot (R : Type) (k' : jsstring -> jsstring -> option R)
  : jsstring -> jsstring -> option R :=
  fun digits s1 =>
    match s1 with
    | c :: s2 => if (c =? DOT)%N then k' digits s2 else None
    | [] => None
    end.

(** The text after the period: [\s*(.+)$]. *)
Definition afterDot (digits : jsstring) (s2 : jsstring)
  : option (jsstring * jsstring) :=
  star isSpace
    (fun _ s3 =>
       plus isAny
         (fun rest s4 =>
            match s4 with
            | [] => Some (digits, rest)
            | _ :: _ => None
            end)
         s3)
    [] s2.

(** [s.match(/^(\d+)\.\s*(.+)$/)]: the two groups of the match. *)
Definition matchLine (s : jsstring) : option (jsstring * jsstring) :=
  plus isDigit (thenDot afterDot) s.

(** The language of the pattern, with its two groups: digits, a period,
    white space and a non-empty remainder without line terminators. *)
Definition blank (s : jsstring) : bool := forallb isSpace s.

Definition Numbered (s digits rest : jsstring) : Prop :=
  exists w, s = digits ++ DOT :: w ++ rest
            /\ digits <> [] /\ forallb isDigit digits = true
            /\ blank w = true
            /\ rest <> [] /\ forallb isAny rest = true.

(** ** The current normalizer *)

Record Track := mkTrack { number : Number; name : jsstring }.

(** [l.map((x, index) => f x index)] *)
Fixpoint mapi_from (A B : Type) (i : nat) (f : A -> nat -> B) (l : list A)
  : list B :=
  match l with
  | [] => []
  | x :: l' => f x i :: mapi_from (S i) f l'
  end.

Definition mapi (A B : Type) (f : A -> nat -> B) (l : list A) : list B :=
  mapi_from 0 f l.

(** The lines that survive [.filter(line => line.trim())]. *)
Definition retained (text : jsstring) : list jsstring :=
  filter (fun line => truthy_string (trim line)) (split text).

(** The callback of [.map].  An array index is below 2^32, so
    [index + 1] is exact. *)
Definition parseLine (line : jsstring) (index : nat) : Track :=
  let trimmedLine := trim line in
  match matchLine trimmedLine with
  | Some (m1, m2) => {| number := parseInt m1; name := trim m2 |}
  | None => {| number := Fin (Z.of_nat index + 1); name := trimmedLine |}
  end.

Definition trackList (text : jsstring) : list Track :=
  filter (fun track => (0 <? length (name track))%nat)
    (mapi parseLine (retained text)).

(** The three ways a lookup ends: [setTracks(trackList)], the
    [setError('Album not found. ...')] of the sentinel test, and the
    [setError] of the [catch] block. *)
Inductive LookupOutcome :=
  | Found (tracks : list Track)
  | NotFound
  | ProviderError (message : jsstring).

Definition noInformation : jsstring := lit "don't have information".
Definition dontKnow : jsstring := lit "don't know".

(** The condition of the [if]. *)
Definition classified (text : jsstring) : bool :=
  includes text noInformation || includes text dontKnow.

(** The [if]/[else] on the response text. *)
Definition normalize (text : jsstring) : LookupOutcome :=
  if classified text then NotFound else Found (trackList text).

(** The track [{ number: n, name: s }] of an ASCII name. *)
Definition T (n : Z) (s : string) : Track :=
  {| number := Fin n; name := lit s |}.
Arguments T n%_Z s%_string.

Definition nonNegative (n : Number) : Prop :=
  match n with
  | Fin z => (0 <= z)%Z
  | Infinity => True
  end.

Definition positive (n : Number) : Prop :=
  match n with
  | Fin z => (0 < z)%Z
  | Infinity => False
  end.

(** ** The earlier normalizer ([src/App.jsx])

    [leadingNumber] is what follows the match of [/^\d+\.\s*/], if
    there is one; [stripNumbering] is [line.replace(/^\d+\.\s*/, '')]:
    the line without its leading number, or the line itself when the
    pattern does not match. *)
Definition leadingNumber (line : jsstring) : option jsstring :=
  plus isDigit
    (thenDot (fun _ s2 => star isSpace (fun _ s3 => Some s3) [] s2))
    line.

Definition stripNumbering (line : jsstring) : jsstring :=
  match leadingNumber line with
  | Some rest => rest
  | None => line
  end.

Definition trackNames (text : jsstring) : list jsstring :=
  filter (fun line => (0 <? length line)%nat)
    (map (fun line => trim (stripNumbering line)) (retained text)).

(** ** The prompt *)

Definition indent : jsstring := lit "                ".

(** The template literal of the request body, line by line. *)
Definition buildPrompt (artist album : jsstring) : jsstring :=
  lit "You are a music database assistant." ++ [LF] ++
  indent ++ lit "List the official tracklist for the studio album "
         ++ [QUOTE] ++ album ++ [QUOTE] ++ lit " by " ++ artist ++ lit "."
         ++ [LF] ++
  indent ++ lit "Requirements:" ++ [LF] ++
  indent ++ lit "- Use the original standard release (not deluxe, remastered, live, or bonus editions)" ++ [LF] ++
  indent ++ lit "- Preserve the correct track order" ++ [LF] ++
  indent ++ lit "- Provide ONLY the track names" ++ [LF] ++
  indent ++ lit "- One track per line" ++ [LF] ++
  indent ++ lit "- Number each track starting from 1" ++ [LF] ++
  indent ++ lit "- Do NOT include any commentary, years, or extra text" ++ [LF] ++
  indent ++ lit "If you are not confident in the exact official tracklist, reply exactly with:" ++ [LF] ++
  indent ++ [QUOTE] ++ lit "I don't have information about this album." ++ [QUOTE].

(** The one-line prompt of [src/App.jsx]. *)
Definition buildPromptLegacy (artist album : jsstring) : jsstring :=
  lit "List all the track names from the album " ++ [QUOTE] ++ album
  ++ [QUOTE] ++ lit " by " ++ artist
  ++ lit ". Provide ONLY the track names, one per line, numbered. Do not include any additional information, explanations, or commentary. If you don't know the exact tracklist, please say "
  ++ [QUOTE] ++ lit "I don't have information about this album." ++ [QUOTE].

(** ** The provider's response *)

(** What [response.json()] resolves to.  Of a number the program only
    ever observes whether it is falsy (zero or NaN). *)
#[warnings="-register-all"]
Inductive value :=
  | VUndefined
  | VNull
  | VBoolean (b : bool)
  | VNumber (falsy : bool)
  | VString (s : jsstring)
  | VArray (items : list value)
  | VObject (props : list (jsstring * value)).

Inductive Body :=
  | InvalidJson (message : jsstring)
  | Json (data : value).

(** [await fetch(...)]: rejected with an error, or resolved with a
    response of which the program reads [ok] and the body. *)
Inductive FetchResult :=
  | Rejected (message : jsstring)
  | Response (ok : bool) (body : Body).

Record Request := mkRequest {
  url : jsstring;
  x_goog_api_key : jsstring;
  prompt : jsstring
}.

(** An expression either has a value or throws an [Error] with a
    message. *)
Inductive completion (A : Type) :=
  | Normal (a : A)
  | Throw (message : jsstring).
Arguments Normal {A} a.
Arguments Throw {A} message.

Definition bind (A B : Type) (c : completion A) (k : A -> completion B)
  : completion B :=
  match c with
  | Normal a => k a
  | Throw m => Throw m
  end.

Notation "x <- c ;; k" := (bind c (fun x => k))
  (at level 61, c at next level, right associativity).

(** The properties the program reads. *)
Inductive key := Kcandidates | Kcontent | Kparts | Ktext | Kzero.

Definition keyName (k : key) : jsstring :=
  match k with
  | Kcandidates => lit "candidates"
  | Kcontent => lit "content"
  | Kparts => lit "parts"
  | Ktext => lit "text"
  | Kzero => lit "0"
  end.

(** The two [TypeError]s the engine can raise here. *)
Inductive Fault :=
  | CannotRead (property : jsstring)
  | NotAFunction (property : jsstring).

Definition nullish (v : value) : bool :=
  match v with
  | VUndefined | VNull => true
  | _ => false
  end.

Definition truthy (v : value) : bool :=
  match v with
  | VUndefined | VNull => false
  | VBoolean b => b
  | VNumber falsy => negb falsy
  | VString s => truthy_string s
  | VArray _ | VObject _ => true
  end.

Fixpoint lookup (k : jsstring) (props : list (jsstring * value)) : value :=
  match props with
  | [] => VUndefined
  | (k', v) :: props' => if eqs k k' then v else lookup k props'
  end.

(** The body of a response whose first candidate's first part holds
    [rawText]. *)
Definition answer (rawText : jsstring) : value :=
  VObject
    [(lit "candidates",
      VArray
        [VObject
           [(lit "content",
             VObject
               [(lit "parts",
                 VArray [VObject [(lit "text", VString rawText)]])])]])].

(** The text a response carries, as the claims speak of it: the string
    held at [candidates], [0], [content], [parts], [0], [text] of the
    body, each step an own property of an object or the first element
    of an array. *)
Definition child (v : value) (k : key) : option value :=
  match v with
  | VObject props =>
      match lookup (keyName k) props with
      | VUndefined => None
      | v' => Some v'
      end
  | VArray items =>
      match k with
      | Kzero => nth_error items 0
      | _ => None
      end
  | _ => None
  end.

Definition andThen (A B : Type) (o : option A) (f : A -> option B)
  : option B :=
  match o with
  | Some a => f a
  | None => None
  end.

Definition extractableText (data : value) : option jsstring :=
  andThen (child data Kcandidates) (fun cs =>
  andThen (child cs Kzero) (fun c0 =>
  andThen (child c0 Kcontent) (fun ct =>
  andThen (child ct Kparts) (fun ps =>
  andThen (child ps Kzero) (fun p0 =>
  andThen (child p0 Ktext) (fun t =>
  match t with
  | VString s => Some s
  | _ => None
  end)))))).

(** A response without text: a body that is not JSON, or one without
    that string. *)
Definition lacksText (body : Body) : Prop :=
  match body with
  | InvalidJson _ => True
  | Json data => extractableText data = None
  end.

Record State := mkState {
  apiKey : jsstring;
  showKey : bool;
  artist : jsstring;
  album : jsstring;
  tracks : list Track;
  loading : bool;
  error : jsstring
}.

Definition setError (e : jsstring) (st : State) : State :=
  mkState (apiKey st) (showKey st) (artist st) (album st) (tracks st)
          (loading st) e.

Definition setTracks (l : list Track) (st : State) : State :=
  mkState (apiKey st) (showKey st) (artist st) (album st) l
          (loading st) (error st).

Definition setLoading (b : bool) (st : State) : State :=
  mkState (apiKey st) (showKey st) (artist st) (album st) (tracks st)
          b (error st).

Definition endpoint : jsstring :=
  lit "https://generativelanguage.googleapis.com/v1beta/models/gemini-2.0-flash-exp:generateContent".

Definition failedToFetch : jsstring :=
  lit "Failed to fetch from Gemini API. Please check your API key.".

Definition albumNotFound : jsstring :=
  lit "Album not found. Please check the artist and album name.".

Definition anErrorOccurred : jsstring :=
  lit "An error occurred while fetching tracks".

Section Engine.
(** The message the engine gives a [TypeError]. *)
Variable typeError : Fault -> jsstring.

(** The provider, as [fetch] sees it. *)
Variable fetch : Request -> FetchResult.

(** [v.k], [v[0]] *)
Definition get (v : value) (k : key) : completion value :=
  match v with
  | VUndefined | VNull => Throw (typeError (CannotRead (keyName k)))
  | VBoolean _ | VNumber _ => Normal VUndefined
  | VString s =>
      match k, s with
      | Kzero, c :: _ => Normal (VString [c])
      | _, _ => Normal VUndefined
      end
  | VArray items =>
      match k with
      | Kzero => Normal (nth 0 items VUndefined)
      | _ => Normal VUndefined
      end
  | VObject props => Normal (lookup (keyName k) props)
  end.

(** [data.candidates[0]?.content?.parts[0]?.text || '']: a nullish
    link ends the rest of the chain with [undefined]. *)
Definition extractText (data : value) : completion value :=
  cs <- get data Kcandidates ;;
  c0 <- get cs Kzero ;;
  t <- (if nullish c0 then Normal VUndefined
        else
          ct <- get c0 Kcontent ;;
          if nullish ct then Normal VUndefined
          else
            ps <- get ct Kparts ;;
            p0 <- get ps Kzero ;;
            if nullish p0 then Normal VUndefined else get p0 Ktext) ;;
  Normal (if truthy t then t else VString []).

(** [t.includes(p)]: the method of a string or of an array; nothing
    else that JSON holds has one. *)
Definition callIncludes (t : value) (p : jsstring) : completion bool :=
  match t with
  | VString s => Normal (includes s p)
  | VArray items =>
      Normal (existsb (fun x => match x with
                                | VString s => eqs s p
                                | _ => false
                                end) items)
  | VUndefined | VNull => Throw (typeError (CannotRead (lit "includes")))
  | _ => Throw (typeError (NotAFunction (lit "includes")))
  end.

(** The [if]/[else] on [text], for whatever [text] holds. *)
Definition classify (t : value) : completion LookupOutcome :=
  a <- callIncludes t noInformation ;;
  b <- (if a then Normal true else callIncludes t dontKnow) ;;
  if b then Normal NotFound
  else match t with
       | VString s => Normal (Found (trackList s))
       | _ => Throw (typeError (NotAFunction (lit "split")))
       end.

(** The [try] block. *)
Definition attempt (key artist album : jsstring)
  : completion LookupOutcome :=
  match fetch (mkRequest endpoint key (buildPrompt artist album)) with
  | Rejected m => Throw m
  | Response ok body =>
      if negb ok then Throw failedToFetch
      else match body with
           | InvalidJson m => Throw m
           | Json data => t <- extractText data ;; classify t
           end
  end.

(** [try { ... } catch (err) { setError(err.message || '...') }] *)
Definition lookupTracks (key artist album : jsstring) : LookupOutcome :=
  match attempt key artist album with
  | Normal o => o
  | Throw m => ProviderError (if truthy_string m then m else anErrorOccurred)
  end.

Definition commit (o : LookupOutcome) (st : State) : State :=
  match o with
  | Found l => setTracks l st
  | NotFound => setError albumNotFound st
  | ProviderError m => setError m st
  end.

(** One lookup from its start to its end, with no other event in
    between. *)
Definition fetchTracks (st : State) : State :=
  if negb (truthy_string (trim (apiKey st))) then
    setError (lit "Please enter your Gemini API key") st
  else if negb (truthy_string (trim (artist st)))
          || negb (truthy_string (trim (album st))) then
    setError (lit "Please enter both artist and album name") st
  else
    let st1 := setTracks [] (setError [] (setLoading true st)) in
    let st2 := commit (lookupTracks (apiKey st) (artist st) (album st)) st1 in
    setLoading false st2.
End Engine.


(** ** What the component shows

    [{error && (...)}] and [{tracks.length > 0 && (...)}]: the error
    box and the track card of the rendered page. *)

Definition errorShown (st : State) : bool := truthy_string (error st).

Definition tracksShown (st : State) : bool := (0 <? length (tracks st))%nat.

(** The request of a lookup from a state. *)
Definition requestOf (st : State) : Request :=
  mkRequest endpoint (apiKey st) (buildPrompt (artist st) (album st)).

(** ** The lookup of the earlier component ([src/App.jsx])

    The same [try]/[catch] around the earlier prompt and normalizer;
    its tracks are names. *)

Inductive LegacyOutcome :=
  | FoundNames (names : list jsstring)
  | NoAlbum
  | Failure (message : jsstring).

Section EngineLegacy.
Variable typeError : Fault -> jsstring.
Variable fetch : Request -> FetchResult.

Definition classifyLegacy (t : value) : completion LegacyOutcome :=
  a <- callIncludes typeError t noInformation ;;
  b <- (if a then Normal true else callIncludes typeError t dontKnow) ;;
  if b then Normal NoAlbum
  else match t with
       | VString s => Normal (FoundNames (trackNames s))
       | _ => Throw (typeError (NotAFunction (lit "split")))
       end.

Definition attemptLegacy (key artist album : jsstring)
  : completion LegacyOutcome :=
  match fetch (mkRequest endpoint key (buildPromptLegacy artist album)) with
  | Rejected m => Throw m
  | Response ok body =>
      if negb ok then Throw failedToFetch
      else match body with
           | InvalidJson m => Throw m
           | Json data => t <- extractText typeError data ;; classifyLegacy t
           end
  end.

Definition lookupTracksLegacy (key artist album : jsstring) : LegacyOutcome :=
  match attemptLegacy key artist album with
  | Normal o => o
  | Throw m => Failure (if truthy_string m then m else anErrorOccurred)
  end.
End EngineLegacy.

(** ** Text with Windows line endings *)

(** The text with every line feed preceded by a carriage return. *)
Fixpoint crlf (s : jsstring) : jsstring :=
  match s with
  | [] => []
  | c :: s' => if (c =? LF)%N then CR :: LF :: crlf s' else c :: crlf s'
  end.

(** A character other than the two of a line ending. *)
Definition plainChar (c : char) : bool :=
  negb (c =? LF)%N && negb (c =? CR)%N.

(** The number of line feeds of a text. *)
Definition lineFeeds (s : jsstring) : nat :=
  length (filter (fun c => (c =? LF)%N) s).

(** ** The pattern as one scan

    What the pattern amounts to on a trimmed line, read from left to
    right without going back: the leading digits, a period, the white
    space after it, and a remainder that must be non-empty and free of
    line terminators. *)

Fixpoint span (p : char -> bool) (s : jsstring) : jsstring * jsstring :=
  match s with
  | c :: s' =>
      if p c then let (a, b) := span p s' in (c :: a, b) else ([], s)
  | [] => ([], [])
  end.

Definition scanLine (t : jsstring) : option (jsstring * jsstring) :=
  match span isDigit t with
  | (c :: d, dot :: x) =>
      if (dot =? DOT)%N then
        let r := trimStart x in
        if truthy_string r && forallb isAny r then Some (c :: d, r) else None
      else None
  | _ => None
  end.

(** ** Notions the properties are stated with *)

(** The digit [0]. *)
Definition isZeroDigit (c : char) : bool := (c =? 48)%N.

(** [items.includes(p)] for an array of JSON values: some element is
    the string [p]. *)
Definition arrayIncludes (items : list value) (p : jsstring) : bool :=
  existsb (fun x => match x with
                    | VString s => eqs s p
                    | _ => false
                    end) items.

(** [err.message || 'An error occurred while fetching tracks'] *)
Definition shownMessage (m : jsstring) : jsstring :=
  if truthy_string m then m else anErrorOccurred.

(** ** The two halves of a lookup

    [fetchTracks] is asynchronous: what it does before [await fetch]
    ([setLoading(true)], [setError('')], [setTracks([])]) and what it
    does once the response is there (one [setError] or [setTracks], then
    [setLoading(false)]) are separate updates of the state, and other
    events, another lookup among them, can come in between.  The
    second half acts on the state as it is then. *)

Definition beginLookup (st : State) : State :=
  setTracks [] (setError [] (setLoading true st)).

Definition finishLookup (o : LookupOutcome) (st : State) : State :=
  setLoading false (commit o st).

(** * Properties *)

(** ** Strings *)

Lemma eqs_eq a b : eqs a b = true <-> a = b.
Proof.
  revert b; induction a as [|x a IH]; intros [|y b]; simpl; split;
    try congruence; try reflexivity.
  - intros H; apply andb_true_iff in H as [H1 H2].
    apply N.eqb_eq in H1; apply IH in H2; congruence.
  - intros H; injection H as -> ->.
    rewrite N.eqb_refl; simpl; now apply IH.
Qed.

Lemma startsWith_iff s p :
  startsWith s p = true <-> exists post, s = p ++ post.
Proof.
  revert s; induction p as [|x p IH]; intros s; simpl.
  - split; [intros _; now exists s | reflexivity].
  - destruct s as [|y s].
    + split; [discriminate | intros [post H]; discriminate].
    + rewrite andb_true_iff, N.eqb_eq, IH; split.
      * intros [-> [post ->]]; now exists post.
      * intros [post H]; injection H as -> ->; split; eauto.
Qed.

Lemma includes_iff s p : includes s p = true <-> Contains s p.
Proof.
  induction s as [|c s IH]; simpl.
  - rewrite orb_false_r, startsWith_iff; split.
    + intros [post H]; now exists [], post.
    + intros [pre [post H]].
      destruct pre; [now exists post|discriminate].
  - rewrite orb_true_iff, startsWith_iff, IH; split.
    + intros [[post H] | [pre [post H]]].
      * now exists [], post.
      * exists (c :: pre), post; simpl; now rewrite H.
    + intros [[|c' pre] [post H]].
      * left; now exists post.
      * right; injection H as -> ->; now exists pre, post.
Qed.

Lemma Contains_here p rest : Contains (p ++ rest) p.
Proof. now exists [], rest. Qed.

Lemma Contains_skip a rest p : Contains rest p -> Contains (a ++ rest) p.
Proof.
  intros [pre [post ->]]; exists (a ++ pre), post.
  now rewrite <- app_assoc.
Qed.

Lemma Contains_left a rest p : Contains a p -> Contains (a ++ rest) p.
Proof.
  intros [pre [post ->]]; exists pre, (post ++ rest).
  now rewrite <- !app_assoc.
Qed.

Lemma Contains_trans s p q : Contains s p -> Contains p q -> Contains s q.
Proof.
  intros [a [b ->]] [c [d ->]]; exists (a ++ c), (d ++ b).
  now rewrite <- !app_assoc.
Qed.

(** *** [trim] *)

Lemma trimStart_blank_app w s : blank w = true -> trimStart (w ++ s) = trimStart s.
Proof.
  induction w as [|c w IH]; simpl; [reflexivity|].
  intros H; apply andb_true_iff in H as [-> H]; auto.
Qed.

Lemma trimStart_split s :
  exists w, s = w ++ trimStart s /\ blank w = true.
Proof.
  induction s as [|c s [w [IH1 IH2]]]; simpl.
  - now exists [].
  - destruct (isSpace c) eqn:E.
    + exists (c :: w); simpl; rewrite E, IH2; split; [congruence|reflexivity].
    + now exists [].
Qed.

Lemma trimStart_head s c r : trimStart s = c :: r -> isSpace c = false.
Proof.
  induction s as [|x s IH]; simpl; [discriminate|].
  destruct (isSpace x) eqn:E; [exact IH|].
  intros H; injection H as -> _; exact E.
Qed.

Lemma trimStart_idem s : trimStart (trimStart s) = trimStart s.
Proof.
  destruct (trimStart s) as [|c r] eqn:E; [reflexivity|].
  simpl; now rewrite (trimStart_head _ E).
Qed.

Lemma trimStart_nil_iff s : trimStart s = [] <-> blank s = true.
Proof.
  induction s as [|c s IH]; simpl; [tauto|].
  destruct (isSpace c); simpl; [exact IH|split; discriminate].
Qed.

Lemma blank_app a b : blank (a ++ b) = blank a && blank b.
Proof. apply forallb_app. Qed.

Lemma blank_rev a : blank (rev a) = blank a.
Proof.
  induction a as [|c a IH]; simpl; [reflexivity|].
  rewrite blank_app, IH; simpl; rewrite andb_true_r; apply andb_comm.
Qed.

Lemma trimEnd_split s :
  exists w, s = trimEnd s ++ w /\ blank w = true.
Proof.
  unfold trimEnd; destruct (trimStart_split (rev s)) as [w [H1 H2]].
  exists (rev w); rewrite blank_rev; split; [|exact H2].
  rewrite <- rev_app_distr, <- H1; symmetry; apply rev_involutive.
Qed.

Lemma trimEnd_app_blank s w : blank w = true -> trimEnd (s ++ w) = trimEnd s.
Proof.
  intros H; unfold trimEnd; rewrite rev_app_distr.
  now rewrite trimStart_blank_app by (now rewrite blank_rev).
Qed.

(** A white-space-free head survives [trimEnd] of what follows. *)
Lemma trimEnd_cons c s : isSpace c = false -> trimEnd (c :: s) = c :: trimEnd s.
Proof.
  intros Hc; unfold trimEnd; simpl.
  destruct (trimStart_split (rev s)) as [w [H1 H2]].
  rewrite H1 at 1; rewrite <- app_assoc, trimStart_blank_app by exact H2.
  destruct (trimStart (rev s)) as [|x r] eqn:E; simpl.
  - now rewrite Hc.
  - rewrite (trimStart_head _ E); simpl.
    now rewrite rev_app_distr.
Qed.

Lemma trimEnd_nil_iff s : trimEnd s = [] <-> blank s = true.
Proof.
  unfold trimEnd; rewrite <- (blank_rev s), <- trimStart_nil_iff; split.
  - intros H; apply (f_equal (@rev char)) in H.
    now rewrite rev_involutive in H.
  - now intros ->.
Qed.

Lemma trimEnd_length s : (length (trimEnd s) <= length s)%nat.
Proof.
  destruct (trimEnd_split s) as [w [H _]].
  rewrite H at 2; rewrite length_app; lia.
Qed.

Lemma trim_nil_iff s : trim s = [] <-> blank s = true.
Proof.
  unfold trim; rewrite trimEnd_nil_iff.
  destruct (trimStart_split s) as [w [H1 H2]].
  rewrite H1 at 2; rewrite blank_app, H2; reflexivity.
Qed.

Lemma trim_blank_app w s : blank w = true -> trim (w ++ s) = trim s.
Proof. intros H; unfold trim; now rewrite trimStart_blank_app. Qed.

Lemma trim_app_blank s w : blank w = true -> trim (s ++ w) = trim s.
Proof.
  intros H; induction s as [|c s IH].
  - simpl; transitivity (@nil char); [now apply trim_nil_iff|reflexivity].
  - unfold trim in *; simpl; destruct (isSpace c); [exact IH|].
    now apply (trimEnd_app_blank (c :: s)).
Qed.

Lemma trimEnd_idem s : trimEnd (trimEnd s) = trimEnd s.
Proof.
  unfold trimEnd; rewrite rev_involutive; now rewrite trimStart_idem.
Qed.

Lemma trim_trimEnd s : trimEnd (trim s) = trim s.
Proof. apply trimEnd_idem. Qed.

(** A non-empty tail of a trimmed string is not blank. *)
Lemma tail_of_trimmed_not_blank s pre r :
  trim s = pre ++ r -> r <> [] -> blank r = false.
Proof.
  intros H Hr; destruct (blank r) eqn:E; [exfalso|reflexivity].
  pose proof (trim_trimEnd s) as Ht; rewrite H in Ht.
  rewrite trimEnd_app_blank in Ht by exact E.
  pose proof (trimEnd_length pre) as Hl; rewrite Ht, length_app in Hl.
  destruct r; [congruence|simpl in Hl; lia].
Qed.

Lemma trim_tail_nonempty s pre r : trim s = pre ++ r -> r <> [] -> trim r <> [].
Proof.
  intros H Hr Hn; apply trim_nil_iff in Hn.
  now rewrite (tail_of_trimmed_not_blank _ _ H Hr) in Hn.
Qed.

(** ** The matcher *)

Section BacktrackingFacts.
Variable R : Type.
Variable p : char -> bool.
Variable k : jsstring -> jsstring -> option R.

(** What a greedy quantifier returns, the continuation returned on
    some split of the input. *)
Lemma star_sound s : forall acc r,
  star p k acc s = Some r ->
  exists a b, s = a ++ b /\ forallb p a = true /\ k (rev acc ++ a) b = Some r.
Proof.
  induction s as [|c s IH]; intros acc r; simpl.
  - intros H; exists [], []; simpl; now rewrite app_nil_r.
  - destruct (p c) eqn:E.
    + destruct (star p k (c :: acc) s) as [r'|] eqn:Es.
      * intros H; injection H as ->.
        destruct (IH _ _ Es) as [a [b [-> [Ha Hk]]]].
        exists (c :: a), b; simpl in *; rewrite E, Ha.
        now rewrite <- app_assoc in Hk.
      * intros H; exists [], (c :: s); simpl; now rewrite app_nil_r.
    + intros H; exists [], (c :: s); simpl; now rewrite app_nil_r.
Qed.

(** Backtracking is exhaustive: if the continuation succeeds on some
    split, the quantifier does not fail. *)
Lemma star_complete a : forall acc b,
  forallb p a = true -> k (rev acc ++ a) b <> None ->
  star p k acc (a ++ b) <> None.
Proof.
  induction a as [|c a IH]; intros acc b Ha Hk; simpl in *.
  - rewrite app_nil_r in Hk.
    destruct b as [|c b]; simpl; [exact Hk|].
    destruct (p c); [|exact Hk].
    destruct (star p k (c :: acc) b); [discriminate|exact Hk].
  - apply andb_true_iff in Ha as [-> Ha].
    specialize (IH (c :: acc) b Ha); simpl in IH.
    rewrite <- app_assoc in IH; specialize (IH Hk).
    destruct (star p k (c :: acc) (a ++ b)); [discriminate|contradiction].
Qed.

Lemma plus_sound s r :
  plus p k s = Some r ->
  exists a b, s = a ++ b /\ a <> [] /\ forallb p a = true /\ k a b = Some r.
Proof.
  destruct s as [|c s]; simpl; [discriminate|].
  destruct (p c) eqn:E; [|discriminate].
  intros H; destruct (star_sound _ _ H) as [a [b [-> [Ha Hk]]]].
  exists (c :: a), b; simpl in *; rewrite E, Ha.
  repeat split; [discriminate|exact Hk].
Qed.

Lemma plus_complete a b :
  a <> [] -> forallb p a = true -> k a b <> None -> plus p k (a ++ b) <> None.
Proof.
  destruct a as [|c a]; [congruence|]; simpl.
  intros _ Ha Hk; apply andb_true_iff in Ha as [-> Ha].
  now apply star_complete.
Qed.
End BacktrackingFacts.

(** [\d+\.] gives nothing back: giving a digit back leaves a digit where
    the period must stand. *)
Lemma star_digits_dot (R : Type) (k' : jsstring -> jsstring -> option R) d :
  forall acc x,
    forallb isDigit d = true ->
    star isDigit (thenDot k') acc (d ++ DOT :: x) = k' (rev acc ++ d) x.
Proof.
  induction d as [|c d IH]; intros acc x Hd; simpl in *.
  - now rewrite app_nil_r.
  - apply andb_true_iff in Hd as [Hc Hd]; rewrite Hc.
    rewrite IH by exact Hd; simpl; rewrite <- app_assoc; simpl.
    destruct (k' (rev acc ++ c :: d) x); [reflexivity|].
    destruct (c =? DOT)%N eqn:E; [|reflexivity].
    apply N.eqb_eq in E; subst c; discriminate.
Qed.

Lemma plus_digits_dot (R : Type) (k' : jsstring -> jsstring -> option R) d x :
  d <> [] -> forallb isDigit d = true ->
  plus isDigit (thenDot k') (d ++ DOT :: x) = k' d x.
Proof.
  destruct d as [|c d]; [congruence|]; simpl; intros _ Hd.
  apply andb_true_iff in Hd as [-> Hd].
  now rewrite star_digits_dot.
Qed.

Lemma plus_digits_dot_sound (R : Type) (k' : jsstring -> jsstring -> option R) s r :
  plus isDigit (thenDot k') s = Some r ->
  exists d x, s = d ++ DOT :: x /\ d <> [] /\ forallb isDigit d = true
              /\ k' d x = Some r.
Proof.
  intros H; destruct (plus_sound _ _ _ H) as [d [b [-> [Hd [Hp Hk]]]]].
  unfold thenDot in Hk; destruct b as [|c x]; [discriminate|].
  destruct (c =? DOT)%N eqn:E; [|discriminate].
  apply N.eqb_eq in E; subst c; now exists d, x.
Qed.

(** The digits before the first period are determined by the string. *)
Lemma digits_dot_inj d : forall d' x x',
  forallb isDigit d = true -> forallb isDigit d' = true ->
  d ++ DOT :: x = d' ++ DOT :: x' -> d = d' /\ x = x'.
Proof.
  induction d as [|c d IH]; intros [|c' d'] x x' Hd Hd' H; simpl in *.
  - injection H as ->; auto.
  - injection H as <- _; discriminate.
  - injection H as -> _; discriminate.
  - apply andb_true_iff in Hd as [_ Hd]; apply andb_true_iff in Hd' as [_ Hd'].
    injection H as -> H; destruct (IH _ _ _ Hd Hd' H) as [-> ->]; auto.
Qed.

Lemma matchLine_unfold s : matchLine s = plus isDigit (thenDot afterDot) s.
Proof. reflexivity. Qed.

Lemma afterDot_sound d s2 d' r :
  afterDot d s2 = Some (d', r) ->
  d' = d /\ exists w, s2 = w ++ r /\ blank w = true /\ r <> []
                      /\ forallb isAny r = true.
Proof.
  unfold afterDot; intros H.
  destruct (star_sound _ _ _ _ H) as [w [s3 [-> [Hw Hk]]]]; simpl in Hk.
  destruct (plus_sound _ _ _ Hk) as [r' [b [-> [Hr [Hp Hb]]]]].
  destruct b; [|discriminate]; injection Hb as -> ->.
  split; [reflexivity|]; exists w; now rewrite app_nil_r.
Qed.

Lemma afterDot_complete d w r :
  blank w = true -> r <> [] -> forallb isAny r = true ->
  afterDot d (w ++ r) <> None.
Proof.
  intros Hw Hr Hp; unfold afterDot; apply star_complete; [exact Hw|]; simpl.
  rewrite <- (app_nil_r r) at 1.
  apply plus_complete; [exact Hr|exact Hp|discriminate].
Qed.

Lemma matchLine_sound s d r : matchLine s = Some (d, r) -> Numbered s d r.
Proof.
  rewrite matchLine_unfold; intros H.
  destruct (plus_digits_dot_sound _ _ H) as [d' [x [-> [Hd [Hp Hk]]]]].
  destruct (afterDot_sound _ _ Hk) as [-> [w [-> [Hw [Hr Ha]]]]].
  now exists w.
Qed.

(** Whatever split of white space and remainder one reads the line
    with, the match has these digits and, once trimmed, this remainder. *)
Lemma matchLine_complete s d r :
  Numbered s d r ->
  exists r', matchLine s = Some (d, r') /\ trim r' = trim r.
Proof.
  intros [w [-> [Hd [Hp [Hw [Hr Ha]]]]]].
  rewrite matchLine_unfold, plus_digits_dot by assumption.
  destruct (afterDot d (w ++ r)) as [[d' r']|] eqn:E.
  - destruct (afterDot_sound _ _ E) as [-> [w' [Hs [Hw' _]]]].
    exists r'; split; [reflexivity|].
    rewrite <- (trim_blank_app w' r' Hw'), <- Hs; now apply trim_blank_app.
  - now apply afterDot_complete in E.
Qed.

Lemma matchLine_none s :
  matchLine s = None <-> forall d r, ~ Numbered s d r.
Proof.
  split.
  - intros H d r Hn; destruct (matchLine_complete Hn) as [r' [H' _]]; congruence.
  - intros H; destruct (matchLine s) as [[d r]|] eqn:E; [|reflexivity].
    now apply matchLine_sound, H in E.
Qed.

(** ** Numbers *)

Lemma toNumber_nonNegative z : (0 <= z)%Z -> nonNegative (toNumber z).
Proof.
  intros Hz; unfold toNumber.
  destruct (z <? 2 ^ 53)%Z; [exact Hz|].
  match goal with |- nonNegative (if ?b then _ else _) => destruct b end;
    [exact I|]; simpl.
  apply Z.shiftl_nonneg.
  assert (0 <= Z.shiftr z (Z.log2 z - 52))%Z by now apply Z.shiftr_nonneg.
  match goal with |- (0 <= if ?b then _ else _)%Z => destruct b end; lia.
Qed.

Lemma toNumber_exact z : (z < 2 ^ 53)%Z -> toNumber z = Fin z.
Proof.
  intros Hz; unfold toNumber.
  apply Z.ltb_lt in Hz; now rewrite Hz.
Qed.

Lemma isDigit_range c : isDigit c = true -> (48 <= Z.of_N c <= 57)%Z.
Proof.
  unfold isDigit; intros H; apply andb_true_iff in H as [H1 H2].
  apply N.leb_le in H1; apply N.leb_le in H2; lia.
Qed.

Lemma mathInt_nonneg ds : forall acc,
  forallb isDigit ds = true -> (0 <= acc)%Z -> (0 <= mathInt acc ds)%Z.
Proof.
  induction ds as [|d ds IH]; intros acc Hd Ha; cbn [mathInt forallb] in *;
    [exact Ha|].
  apply andb_true_iff in Hd as [Hc Hd]; apply isDigit_range in Hc.
  apply IH; [exact Hd|lia].
Qed.

Lemma parseInt_nonNegative ds :
  forallb isDigit ds = true -> nonNegative (parseInt ds).
Proof.
  intros H; apply toNumber_nonNegative, mathInt_nonneg; [exact H|lia].
Qed.

(** ** The normalizer *)

Lemma nth_error_mapi_from (A B : Type) (f : A -> nat -> B) l : forall i n,
  nth_error (mapi_from i f l) n
  = option_map (fun x => f x (i + n)%nat) (nth_error l n).
Proof.
  induction l as [|x l IH]; intros i [|n]; simpl; try reflexivity.
  - now rewrite Nat.add_0_r.
  - rewrite IH; simpl; now rewrite Nat.add_succ_r.
Qed.

Lemma length_mapi_from (A B : Type) (f : A -> nat -> B) l : forall i,
  length (mapi_from i f l) = length l.
Proof. induction l; intros i; simpl; auto. Qed.

Lemma In_mapi_from (A B : Type) (f : A -> nat -> B) l : forall i y,
  In y (mapi_from i f l) -> exists x j, In x l /\ y = f x j.
Proof.
  induction l as [|x l IH]; intros i y; simpl; [tauto|].
  intros [<- | H].
  - exists x, i; auto.
  - destruct (IH _ _ H) as [x' [j [H1 H2]]]; exists x', j; auto.
Qed.

Lemma filter_all (A : Type) (f : A -> bool) l :
  (forall x, In x l -> f x = true) -> filter f l = l.
Proof.
  induction l as [|x l IH]; simpl; intros H; [reflexivity|].
  rewrite (H x) by auto; f_equal; apply IH; auto.
Qed.

Lemma retained_not_blank text line :
  In line (retained text) -> trim line <> [].
Proof.
  unfold retained; intros H; apply filter_In in H as [_ H].
  destruct (trim line); [discriminate|discriminate].
Qed.

Lemma parseLine_numbered line index digits rest :
  Numbered (trim line) digits rest ->
  parseLine line index = {| number := parseInt digits; name := trim rest |}.
Proof.
  intros H; destruct (matchLine_complete H) as [r' [Hm Hr]].
  unfold parseLine; now rewrite Hm, Hr.
Qed.

Lemma parseLine_unnumbered line index :
  matchLine (trim line) = None ->
  parseLine line index
  = {| number := Fin (Z.of_nat index + 1); name := trim line |}.
Proof. intros H; unfold parseLine; now rewrite H. Qed.

(** Every record the callback makes of a retained line has a name and
    a number that is not negative. *)
Lemma parseLine_sane line index :
  trim line <> [] ->
  nonNegative (number (parseLine line index)) /\ name (parseLine line index) <> [].
Proof.
  intros Ht; unfold parseLine.
  destruct (matchLine (trim line)) as [[d r]|] eqn:E; simpl.
  - destruct (matchLine_sound _ E) as [w [Hs [Hd [Hp [Hw [Hr Ha]]]]]].
    split; [now apply parseInt_nonNegative|].
    apply (trim_tail_nonempty line (d ++ DOT :: w)); [|exact Hr].
    now rewrite Hs, <- app_assoc.
  - split; [lia|exact Ht].
Qed.

(** The last [.filter] finds nothing to drop. *)
Lemma trackList_unfiltered text :
  trackList text = mapi parseLine (retained text).
Proof.
  unfold trackList; apply filter_all; intros t Ht.
  apply In_mapi_from in Ht as [line [j [Hl ->]]].
  destruct (parseLine_sane line j (retained_not_blank _ _ Hl)) as [_ Hn].
  destruct (name (parseLine line j)); [congruence|reflexivity].
Qed.

Lemma normalize_found text :
  classified text = false -> normalize text = Found (trackList text).
Proof. intros H; unfold normalize; now rewrite H. Qed.

Lemma trackList_nth text n line :
  nth_error (retained text) n = Some line ->
  nth_error (trackList text) n = Some (parseLine line n).
Proof.
  intros H; rewrite trackList_unfiltered; unfold mapi.
  now rewrite nth_error_mapi_from, H.
Qed.

Lemma trackList_length text : length (trackList text) = length (retained text).
Proof. rewrite trackList_unfiltered; apply length_mapi_from. Qed.

Lemma parseInt_exact ds :
  (mathInt 0 ds < 2 ^ 53)%Z -> parseInt ds = Fin (mathInt 0 ds).
Proof. apply toNumber_exact. Qed.

Lemma filter_none (A : Type) (f : A -> bool) l :
  (forall x, In x l -> f x = false) -> filter f l = [].
Proof.
  induction l as [|x l IH]; simpl; intros H; [reflexivity|].
  rewrite (H x) by auto; apply IH; auto.
Qed.

(** ** The claims about the normalizer *)

(** C1 (the code departs from the claim).  On the text of the claim,
    ["1. "], a line feed, ["2. Something"], the first line is not
    dropped: trimmed to ["1."] it has nothing left for [(.+)], so the
    pattern fails and the fallback branch keeps it as a track named
    ["1."].  The outcome has two tracks, not the one the claim gives. *)
Theorem C1_numbering_only_line_is_kept :
  normalize (lit "1. " ++ [LF] ++ lit "2. Something")
  = Found [T 1 "1."; T 2 "Something"].
Proof. vm_compute. reflexivity. Qed.

(** The earlier normalizer does drop that line. *)
Lemma trackNames_drops_numbering_only_line :
  trackNames (lit "1. " ++ [LF] ++ lit "2. Something") = [lit "Something"].
Proof. vm_compute. reflexivity. Qed.

(** C2, as stated, fails: the line ["0. Song"] gives a track whose
    position is 0, which is not positive. *)
Lemma C2_zero_position_counterexample :
  ~ (forall rawText l t,
        normalize rawText = Found l -> In t l ->
        positive (number t) /\ name t <> []).
Proof.
  intros H.
  destruct (H (lit "0. Song") [T 0 "Song"] (T 0 "Song")) as [Hp _].
  - vm_compute; reflexivity.
  - now left.
  - simpl in Hp; lia.
Qed.

Lemma toNumber_positive z :
  (0 < z)%Z -> positive (toNumber z) \/ toNumber z = Infinity.
Proof.
  intros Hz; unfold toNumber.
  destruct (Z.ltb_spec z (2 ^ 53)) as [Hlt|Hge]; [left; exact Hz|].
  match goal with |- context [if ?b then Infinity else _] => destruct b end;
    [now right|left]; simpl.
  assert (Hlog : (53 <= Z.log2 z)%Z).
  { rewrite <- (Z.log2_pow2 53) by lia; now apply Z.log2_le_mono. }
  set (e := (Z.log2 z - 52)%Z) in *.
  assert (He : (0 <= e)%Z) by (unfold e; lia).
  assert (Hq : (0 < Z.shiftr z e)%Z).
  { rewrite Z.shiftr_div_pow2 by exact He.
    apply Z.div_str_pos; split; [apply Z.pow_pos_nonneg; lia|].
    transitivity (2 ^ Z.log2 z)%Z.
    - apply Z.pow_le_mono_r; unfold e; lia.
    - apply Z.log2_spec; lia. }
  rewrite Z.shiftl_mul_pow2 by exact He.
  apply Z.mul_pos_pos; [|apply Z.pow_pos_nonneg; lia].
  match goal with |- (0 < if ?b then _ else _)%Z => destruct b end; lia.
Qed.

Lemma mathInt_ge ds : forall acc,
  forallb isDigit ds = true -> (0 <= acc)%Z -> (acc <= mathInt acc ds)%Z.
Proof.
  induction ds as [|d ds IH]; intros acc Hd Ha; cbn [mathInt forallb] in *;
    [lia|].
  apply andb_true_iff in Hd as [Hc Hd]; apply isDigit_range in Hc.
  specialize (IH (10 * acc + (Z.of_N d - 48))%Z Hd ltac:(lia)); lia.
Qed.

(** Digits denote zero exactly when each of them is [0]. *)
Lemma mathInt_zero_iff ds :
  forallb isDigit ds = true ->
  (mathInt 0 ds = 0%Z <-> forallb isZeroDigit ds = true).
Proof.
  assert (H : forall ds acc, forallb isDigit ds = true -> (0 <= acc)%Z ->
            (mathInt acc ds = 0%Z
             <-> acc = 0%Z /\ forallb isZeroDigit ds = true)).
  { clear ds; induction ds as [|d ds IH]; intros acc Hd Ha;
      cbn [mathInt forallb] in *; [tauto|].
    apply andb_true_iff in Hd as [Hc Hd]; apply isDigit_range in Hc.
    rewrite (IH (10 * acc + (Z.of_N d - 48))%Z Hd ltac:(lia)).
    rewrite andb_true_iff.
    assert (Hz : isZeroDigit d = true <-> d = 48%N) by apply N.eqb_eq.
    rewrite Hz; split.
    - intros [H1 H2]; repeat split; [lia|lia|exact H2].
    - intros [-> [-> H2]]; auto. }
  intros Hd; rewrite (H ds 0%Z Hd ltac:(lia)); tauto.
Qed.

(** What [parseInt] makes of digits: zero when they are all [0], and
    otherwise a positive integer or, beyond the doubles, [Infinity]. *)
Lemma parseInt_cases ds :
  forallb isDigit ds = true ->
  (forallb isZeroDigit ds = true /\ parseInt ds = Fin 0)
  \/ (forallb isZeroDigit ds = false
      /\ (positive (parseInt ds) \/ parseInt ds = Infinity)).
Proof.
  intros Hd; unfold parseInt.
  destruct (forallb isZeroDigit ds) eqn:E.
  - left; split; [reflexivity|].
    apply (mathInt_zero_iff ds Hd) in E; now rewrite E.
  - right; split; [reflexivity|]; apply toNumber_positive.
    pose proof (@mathInt_ge ds 0%Z Hd ltac:(lia)) as Hge.
    destruct (Z.eq_dec (mathInt 0 ds) 0) as [H0|H0]; [|lia].
    apply (mathInt_zero_iff ds Hd) in H0; congruence.
Qed.

(** C2, amended.  A [Found] outcome has one track for each retained
    line, in order, and every track has a non-empty name.  The track of
    a line that the pattern does not match has the line's 1-based rank
    as position and the trimmed line as name.  The track of a line that
    the pattern matches has as position [parseInt] of the line's leading
    digits: [0] when the digits are all zeros (as for ["0. Song"]), and
    otherwise a positive integer or, beyond the range of a double,
    [Infinity]. *)
Theorem C2_track_position_and_name rawText l :
  normalize rawText = Found l ->
  length l = length (retained rawText)
  /\ forall n t,
       nth_error l n = Some t ->
       exists line,
         nth_error (retained rawText) n = Some line
         /\ name t <> []
         /\ ((matchLine (trim line) = None
              /\ number t = Fin (Z.of_nat n + 1) /\ name t = trim line)
             \/ exists digits rest,
                  matchLine (trim line) = Some (digits, rest)
                  /\ digits <> [] /\ forallb isDigit digits = true
                  /\ number t = parseInt digits /\ name t = trim rest
                  /\ ((forallb isZeroDigit digits = true
                       /\ number t = Fin 0)
                      \/ (forallb isZeroDigit digits = false
                          /\ (positive (number t)
                              \/ number t = Infinity)))).
Proof.
  unfold normalize; destruct (classified rawText); [discriminate|].
  intros H; injection H as <-.
  split; [apply trackList_length|]; intros n t Ht.
  destruct (nth_error (retained rawText) n) as [line|] eqn:El.
  - rewrite (trackList_nth _ _ El) in Ht; injection Ht as <-.
    exists line; split; [reflexivity|].
    pose proof (nth_error_In _ _ El) as Hin.
    split; [apply (parseLine_sane line n (retained_not_blank _ _ Hin))|].
    unfold parseLine; destruct (matchLine (trim line)) as [[d r]|] eqn:Em.
    + right; exists d, r.
      destruct (matchLine_sound _ Em) as [w [_ [Hn [Hd _]]]]; simpl.
      repeat (split; [solve [auto]|]); now apply parseInt_cases.
    + left; auto.
  - exfalso; apply nth_error_None in El.
    assert (n < length (trackList rawText))%nat
      by (apply nth_error_Some; congruence).
    rewrite trackList_length in H; lia.
Qed.

Lemma C2_track_position_and_name_witness :
  exists line,
    nth_error (retained (lit "0. Song")) 0 = Some line
    /\ name (T 0 "Song") <> []
    /\ ((matchLine (trim line) = None
         /\ number (T 0 "Song") = Fin (Z.of_nat 0 + 1)
         /\ name (T 0 "Song") = trim line)
        \/ exists digits rest,
             matchLine (trim line) = Some (digits, rest)
             /\ digits <> [] /\ forallb isDigit digits = true
             /\ number (T 0 "Song") = parseInt digits
             /\ name (T 0 "Song") = trim rest
             /\ ((forallb isZeroDigit digits = true
                  /\ number (T 0 "Song") = Fin 0)
                 \/ (forallb isZeroDigit digits = false
                     /\ (positive (number (T 0 "Song"))
                         \/ number (T 0 "Song") = Infinity)))).
Proof.
  apply (proj2 (@C2_track_position_and_name (lit "0. Song") [T 0 "Song"]
                  eq_refl) 0%nat (T 0 "Song")).
  reflexivity.
Defined.

(** C4.  A retained line that the pattern does not match becomes the
    track whose position is the line's 1-based rank among the retained
    lines, which is also its place in the outcome, and whose name is
    the trimmed line; the numbers on other lines play no part.  So
    ["5. Track Five"], ["Track Six"] gives positions 5 and 2. *)
Theorem C4_fallback_position_is_rank :
  (forall rawText n line,
      classified rawText = false ->
      nth_error (retained rawText) n = Some line ->
      matchLine (trim line) = None ->
      exists l,
        normalize rawText = Found l
        /\ length l = length (retained rawText)
        /\ nth_error l n
           = Some {| number := Fin (Z.of_nat n + 1); name := trim line |})
  /\ normalize (lit "5. Track Five" ++ [LF] ++ lit "Track Six")
     = Found [T 5 "Track Five"; T 2 "Track Six"].
Proof.
  split; [|vm_compute; reflexivity].
  intros rawText n line Hc Hn Hm; exists (trackList rawText).
  split; [now apply normalize_found|].
  split; [apply trackList_length|].
  now rewrite (trackList_nth _ _ Hn), parseLine_unnumbered.
Qed.

Lemma C4_fallback_position_is_rank_witness :
  exists l,
    normalize (lit "5. Track Five" ++ [LF] ++ lit "Track Six") = Found l
    /\ length l = 2%nat
    /\ nth_error l 1 = Some (T 2 "Track Six").
Proof.
  apply (proj1 C4_fallback_position_is_rank
           (lit "5. Track Five" ++ [LF] ++ lit "Track Six") 1%nat
           (lit "Track Six")); reflexivity.
Defined.

(** C5.  A retained line that, trimmed, reads digits, a period, white
    space and a non-empty remainder without line terminators becomes the
    track whose position is [parseInt] of the digits and whose name is
    the trimmed remainder, at the line's place in the outcome.  The
    three numbered lines of the claim give tracks 1, 2 and 3 in order. *)
Theorem C5_numbered_line_keeps_its_number :
  (forall rawText n line digits w rest,
      classified rawText = false ->
      nth_error (retained rawText) n = Some line ->
      trim line = digits ++ DOT :: w ++ rest ->
      digits <> [] -> forallb isDigit digits = true ->
      blank w = true ->
      rest <> [] -> forallb isAny rest = true ->
      exists l,
        normalize rawText = Found l
        /\ length l = length (retained rawText)
        /\ nth_error l n
           = Some {| number := parseInt digits; name := trim rest |})
  /\ normalize (lit "1. Come Together" ++ [LF] ++ lit "2. Something" ++ [LF]
                ++ lit "3. Maxwell's Silver Hammer")
     = Found [T 1 "Come Together"; T 2 "Something";
              T 3 "Maxwell's Silver Hammer"].
Proof.
  split; [|vm_compute; reflexivity].
  intros rawText n line digits w rest Hc Hn Hs Hd Hp Hw Hr Ha.
  exists (trackList rawText).
  split; [now apply normalize_found|].
  split; [apply trackList_length|].
  rewrite (trackList_nth _ _ Hn); f_equal.
  apply parseLine_numbered; now exists w.
Qed.

Lemma C5_numbered_line_keeps_its_number_witness :
  exists l,
    normalize (lit "1. Come Together" ++ [LF] ++ lit "2. Something" ++ [LF]
               ++ lit "3.  Maxwell's Silver Hammer ")
    = Found l
    /\ length l = 3%nat
    /\ nth_error l 2 = Some (T 3 "Maxwell's Silver Hammer").
Proof.
  apply (proj1 C5_numbered_line_keeps_its_number
           (lit "1. Come Together" ++ [LF] ++ lit "2. Something" ++ [LF]
            ++ lit "3.  Maxwell's Silver Hammer ")
           2%nat (lit "3.  Maxwell's Silver Hammer ")
           (lit "3") (lit " ") (lit " Maxwell's Silver Hammer"));
    try reflexivity; discriminate.
Defined.

(** C8.  The empty text gives [Found []]; so does every text that is not
    classified as unknown and has only blank lines. *)
Theorem C8_no_lines_found_nothing :
  normalize [] = Found []
  /\ forall rawText,
       classified rawText = false ->
       (forall line, In line (split rawText) -> blank line = true) ->
       normalize rawText = Found [].
Proof.
  split; [reflexivity|].
  intros rawText Hc Hb; rewrite normalize_found by exact Hc.
  assert (Hr : retained rawText = []).
  { apply filter_none; intros line Hl.
    apply Hb, trim_nil_iff in Hl; now rewrite Hl. }
  unfold trackList; now rewrite Hr.
Qed.

Lemma C8_no_lines_found_nothing_witness :
  normalize (lit "  " ++ [LF] ++ [9%N; CR]) = Found [].
Proof.
  apply (proj2 C8_no_lines_found_nothing); [reflexivity|].
  intros line [<- | [<- | []]]; reflexivity.
Defined.

(** C6.  A text in which ["don't have information"] or ["don't know"]
    occurs anywhere, and so one in which the sentence the prompt asks
    for occurs, is classified [NotFound]; no track is made of it. *)
Theorem C6_sentinel_anywhere_is_not_found rawText :
  Contains rawText noInformation \/ Contains rawText dontKnow
  \/ Contains rawText (lit "I don't have information about this album.") ->
  normalize rawText = NotFound.
Proof.
  intros H; unfold normalize, classified.
  assert (Hs : Contains rawText noInformation \/ Contains rawText dontKnow).
  { destruct H as [H | [H | H]]; auto.
    left; apply (Contains_trans H); exists (lit "I "), (lit " about this album.").
    reflexivity. }
  destruct Hs as [Hs | Hs]; apply includes_iff in Hs; rewrite Hs;
    [reflexivity | now rewrite orb_true_r].
Qed.

Lemma C6_sentinel_anywhere_is_not_found_witness :
  normalize (lit "1. Intro" ++ [LF]
             ++ lit "Sorry, I don't have information about this album. Bye")
  = NotFound.
Proof.
  apply C6_sentinel_anywhere_is_not_found; right; right.
  exists (lit "1. Intro" ++ [LF] ++ lit "Sorry, "), (lit " Bye"); reflexivity.
Defined.

(** The test is case-sensitive. *)
Lemma classified_case_sensitive :
  normalize (lit "Don't Know") = Found [T 1 "Don't Know"].
Proof. vm_compute. reflexivity. Qed.

(** ** The prompt *)

Ltac find_phrase :=
  first [ apply includes_iff; vm_compute; reflexivity
        | apply Contains_skip; find_phrase ].

(** C7.  For non-empty artist and album the prompt holds the album, in
    quotes, and the artist as they were given; asks for the original
    standard release and names deluxe, remastered, live and bonus
    editions as excluded; and ends by telling the provider to reply
    exactly with the quoted sentence ["I don't have information about
    this album."]. *)
Theorem C7_prompt_contents artist album :
  artist <> [] -> album <> [] ->
  Contains (buildPrompt artist album)
    ([QUOTE] ++ album ++ [QUOTE] ++ lit " by " ++ artist ++ lit ".")
  /\ Contains (buildPrompt artist album)
       (lit "Use the original standard release (not deluxe, remastered, live, or bonus editions)")
  /\ Contains (buildPrompt artist album)
       (lit "reply exactly with:" ++ [LF] ++ indent ++ [QUOTE]
        ++ lit "I don't have information about this album." ++ [QUOTE])
  /\ exists before,
       buildPrompt artist album
       = before ++ [QUOTE] ++ lit "I don't have information about this album."
         ++ [QUOTE].
Proof.
  intros _ _; unfold buildPrompt; repeat split.
  - do 4 apply Contains_skip.
    match goal with
    | |- Contains (_ ++ _ ++ _ ++ _ ++ _ ++ _ ++ ?post) _ => exists [], post
    end.
    now rewrite <- !app_assoc.
  - find_phrase.
  - find_phrase.
  - eexists; rewrite !app_assoc; reflexivity.
Qed.

Lemma C7_prompt_contents_witness :
  Contains (buildPrompt (lit "The Beatles") (lit "Abbey Road"))
    ([QUOTE] ++ lit "Abbey Road" ++ [QUOTE] ++ lit " by The Beatles.").
Proof.
  apply (C7_prompt_contents (artist := lit "The Beatles")
           (album := lit "Abbey Road")); discriminate.
Defined.

(** ** The two normalizers *)

Lemma digit_not_space c : isDigit c = true -> isSpace c = false.
Proof.
  unfold isDigit, isSpace, isWhiteSpace, isLineTerminator; intros H.
  apply andb_true_iff in H as [H1 H2].
  apply N.leb_le in H1; apply N.leb_le in H2.
  repeat match goal with
         | |- context [(c =? ?k)%N] =>
             destruct (N.eqb_spec c k); [lia|]
         | |- context [(?k <=? c)%N] =>
             destruct (N.leb_spec k c); [lia|]
         end.
  reflexivity.
Qed.

Lemma star_space_all s : forall acc,
  star isSpace (fun _ s3 => Some s3) acc s = Some (trimStart s).
Proof.
  induction s as [|c s IH]; intros acc; simpl; [reflexivity|].
  destruct (isSpace c); [now rewrite IH|reflexivity].
Qed.

Lemma leadingNumber_some line rest :
  leadingNumber line = Some rest ->
  exists d x, line = d ++ DOT :: x /\ d <> [] /\ forallb isDigit d = true
              /\ rest = trimStart x.
Proof.
  unfold leadingNumber; intros H.
  destruct (plus_digits_dot_sound _ _ H) as [d [x [-> [Hd [Hp Hk]]]]].
  rewrite star_space_all in Hk; injection Hk as <-; now exists d, x.
Qed.

Lemma trimEnd_digits_dot d x :
  forallb isDigit d = true ->
  trimEnd (d ++ DOT :: x) = d ++ DOT :: trimEnd x.
Proof.
  induction d as [|c d IH]; simpl; intros Hd.
  - now apply trimEnd_cons.
  - apply andb_true_iff in Hd as [Hc Hd].
    rewrite trimEnd_cons by now apply digit_not_space.
    now rewrite IH.
Qed.

Lemma trim_digits_dot d x :
  d <> [] -> forallb isDigit d = true ->
  trim (d ++ DOT :: x) = d ++ DOT :: trimEnd x.
Proof.
  intros Hn Hd; unfold trim.
  destruct d as [|c d]; [congruence|]; simpl in *.
  apply andb_true_iff in Hd as [Hc Hd].
  rewrite (digit_not_space _ Hc).
  apply (trimEnd_digits_dot (c :: d)); simpl; now rewrite Hc.
Qed.

Lemma trim_trimStart s : trim (trimStart s) = trim s.
Proof. unfold trim; now rewrite trimStart_idem. Qed.

Lemma trim_of_trimEnd s : trim (trimEnd s) = trim s.
Proof.
  destruct (trimEnd_split s) as [w [H Hw]].
  rewrite H at 2; now rewrite trim_app_blank.
Qed.

(** When the two patterns agree that a line is numbered, or that it is
    not, the two callbacks give it the same name. *)
Lemma same_name line index :
  (leadingNumber line = None <-> matchLine (trim line) = None) ->
  trim (stripNumbering line) = name (parseLine line index).
Proof.
  intros [H1 H2]; unfold stripNumbering, parseLine.
  destruct (matchLine (trim line)) as [[d r]|] eqn:Em.
  - destruct (leadingNumber line) as [rest|] eqn:El;
      [|specialize (H1 eq_refl); discriminate].
    destruct (leadingNumber_some _ El) as [d1 [x [-> [Hn [Hd ->]]]]].
    rewrite trim_digits_dot in Em by assumption.
    destruct (matchLine_sound _ Em) as [w [Hs [_ [Hp [Hw _]]]]].
    apply digits_dot_inj in Hs as [_ Hs]; [|assumption|assumption].
    simpl; rewrite trim_trimStart, <- (trim_blank_app w r Hw), <- Hs.
    symmetry; apply trim_of_trimEnd.
  - now rewrite (H2 eq_refl).
Qed.

Lemma map_name_mapi_from l : forall i,
  (forall line, In line l ->
     leadingNumber line = None <-> matchLine (trim line) = None) ->
  map name (mapi_from i parseLine l)
  = map (fun line => trim (stripNumbering line)) l.
Proof.
  induction l as [|line l IH]; intros i H; simpl; [reflexivity|].
  rewrite <- (same_name line i (H line (or_introl eq_refl))).
  f_equal; apply IH; intros; apply H; now right.
Qed.

(** C9, as stated, fails: the line [" 1. Song"] is named ["1. Song"] by
    the earlier normalizer, whose pattern is tried on the untrimmed
    line, and ["Song"] by the current one. *)
Lemma C9_names_differ_counterexample :
  ~ (forall rawText,
        classified rawText = false ->
        trackNames rawText = map name (trackList rawText)).
Proof.
  intros H; specialize (H (lit " 1. Song") eq_refl).
  vm_compute in H; discriminate.
Qed.

(** C9, amended.  On a text that is not classified as unknown and on
    whose retained lines the two patterns agree (the earlier one finds a
    leading number in the line exactly when the current one matches the
    trimmed line) the names of the earlier normalizer are the names of
    the tracks of the current one. *)
Theorem C9_names_agree_when_patterns_agree rawText :
  classified rawText = false ->
  (forall line, In line (retained rawText) ->
     leadingNumber line = None <-> matchLine (trim line) = None) ->
  trackNames rawText = map name (trackList rawText).
Proof.
  intros _ H; rewrite trackList_unfiltered; unfold mapi.
  rewrite (map_name_mapi_from _ 0 H); unfold trackNames.
  apply filter_all; intros n Hn.
  rewrite <- (map_name_mapi_from _ 0 H) in Hn.
  apply in_map_iff in Hn as [t [<- Ht]].
  apply In_mapi_from in Ht as [line [j [Hl ->]]].
  destruct (parseLine_sane line j (retained_not_blank _ _ Hl)) as [_ Hne].
  destruct (name (parseLine line j)); [congruence|reflexivity].
Qed.

Lemma C9_names_agree_when_patterns_agree_witness :
  trackNames (lit "1. Come Together" ++ [LF] ++ lit "  Something ")
  = map name (trackList (lit "1. Come Together" ++ [LF] ++ lit "  Something ")).
Proof.
  apply C9_names_agree_when_patterns_agree; [reflexivity|].
  intros line [<- | [<- | []]]; vm_compute; split; intros E;
    first [reflexivity | discriminate E].
Defined.

(** ** The lookup *)

Section EngineFacts.
Variable typeError : Fault -> jsstring.
Variable fetch : Request -> FetchResult.

Lemma classify_string s :
  classify typeError (VString s) = Normal (normalize s).
Proof.
  unfold classify, normalize, classified; simpl.
  destruct (includes s noInformation); simpl; [reflexivity|].
  destruct (includes s dontKnow); reflexivity.
Qed.

Lemma extractText_answer rawText :
  extractText typeError (answer rawText) = Normal (VString rawText).
Proof. destruct rawText; reflexivity. Qed.

(** A response whose body is [answer rawText] is normalized. *)
Lemma lookupTracks_answer key artist album rawText :
  fetch (mkRequest endpoint key (buildPrompt artist album))
  = Response true (Json (answer rawText)) ->
  lookupTracks typeError fetch key artist album = normalize rawText.
Proof.
  intros H; unfold lookupTracks, attempt; rewrite H; simpl negb; cbv iota.
  rewrite extractText_answer; simpl bind.
  now rewrite classify_string.
Qed.
End EngineFacts.

(** C10.  The prompt is a function of the artist and the album, and the
    outcome a function of the response text: equal inputs give equal
    prompts and equal outcomes, and two lookups that are answered with
    the same text end alike, whatever the key, the artist, the album
    and the engine. *)
Theorem C10_prompt_and_outcome_determined :
  (forall artist album artist' album',
      artist <> [] -> album <> [] ->
      artist = artist' -> album = album' ->
      buildPrompt artist album = buildPrompt artist' album')
  /\ (forall rawText rawText',
        rawText = rawText' -> normalize rawText = normalize rawText')
  /\ (forall typeError typeError' fetch fetch' key key' artist artist'
             album album' rawText,
        fetch (mkRequest endpoint key (buildPrompt artist album))
        = Response true (Json (answer rawText)) ->
        fetch' (mkRequest endpoint key' (buildPrompt artist' album'))
        = Response true (Json (answer rawText)) ->
        lookupTracks typeError fetch key artist album
        = lookupTracks typeError' fetch' key' artist' album').
Proof.
  repeat split.
  - intros; now subst.
  - intros; now subst.
  - intros typeError typeError' fetch fetch' key key' artist artist'
           album album' rawText H H'.
    now rewrite (lookupTracks_answer typeError fetch _ _ _ H),
                (lookupTracks_answer typeError' fetch' _ _ _ H').
Qed.

Lemma C10_prompt_and_outcome_determined_witness :
  buildPrompt (lit "Queen") (lit "Jazz") = buildPrompt (lit "Queen") (lit "Jazz")
  /\ normalize (lit "1. Mustapha") = normalize (lit "1. Mustapha")
  /\ lookupTracks (fun _ => lit "TypeError")
       (fun _ => Response true (Json (answer (lit "1. Mustapha"))))
       (lit "k1") (lit "Queen") (lit "Jazz")
     = lookupTracks (fun _ => [])
         (fun _ => Response true (Json (answer (lit "1. Mustapha"))))
         (lit "k2") (lit "queen") (lit "jazz").
Proof.
  destruct C10_prompt_and_outcome_determined as [Hp [Hn Hl]].
  split; [|split].
  - apply Hp; [discriminate|discriminate|reflexivity|reflexivity].
  - apply Hn; reflexivity.
  - apply Hl with (rawText := lit "1. Mustapha"); reflexivity.
Defined.

Lemma message_nonempty m :
  (if truthy_string m then m else anErrorOccurred) <> [].
Proof. destruct m; simpl; discriminate. Qed.

Section ResponseFacts.
Variable typeError : Fault -> jsstring.

(** Reading a property gives the own property or first element there
    is, or nothing; only an index into a string makes a value that the
    body does not hold. *)
Lemma get_child v k v' :
  get typeError v k = Normal v' -> nullish v' = false ->
  child v k = Some v' \/ (k = Kzero /\ exists c, v' = VString [c]).
Proof.
  destruct v; simpl; try discriminate.
  - intros H; injection H as <-; discriminate.
  - intros H; injection H as <-; discriminate.
  - destruct k, s; intros H; injection H as <-; try discriminate.
    right; split; [reflexivity|now eexists].
  - destruct k; intros H; injection H as <-; try discriminate.
    destruct items; simpl; [discriminate|auto].
  - intros H; injection H as <-.
    destruct (lookup (keyName k) props); try discriminate; auto.
Qed.

Lemma get_child_named v k v' :
  k <> Kzero ->
  get typeError v k = Normal v' -> nullish v' = false -> child v k = Some v'.
Proof.
  intros Hk H Hn; destruct (get_child _ _ H Hn) as [Hc | [Hz _]];
    [exact Hc|contradiction].
Qed.

Lemma get_not_nullish v k v' :
  get typeError v k = Normal v' -> nullish v = false.
Proof. destruct v; simpl; try reflexivity; discriminate. Qed.

(** A non-empty string that the chain of reads ends in is the text of
    the body. *)
Lemma extractText_string data c s :
  extractText typeError data = Normal (VString (c :: s)) ->
  extractableText data = Some (c :: s).
Proof.
  unfold extractText; intros H.
  destruct (get typeError data Kcandidates) as [cs|] eqn:E1;
    [|discriminate]; simpl in H.
  destruct (get typeError cs Kzero) as [c0|] eqn:E2;
    [|discriminate]; simpl in H.
  destruct (nullish c0) eqn:N0; [discriminate|].
  destruct (get typeError c0 Kcontent) as [ct|] eqn:E3;
    [|discriminate]; simpl in H.
  destruct (nullish ct) eqn:N1; [discriminate|].
  destruct (get typeError ct Kparts) as [ps|] eqn:E4;
    [|discriminate]; simpl in H.
  destruct (get typeError ps Kzero) as [p0|] eqn:E5;
    [|discriminate]; simpl in H.
  destruct (nullish p0) eqn:N2; [discriminate|].
  destruct (get typeError p0 Ktext) as [t|] eqn:E6;
    [|discriminate]; simpl in H.
  assert (Ht : t = VString (c :: s))
    by (destruct (truthy t); [congruence|discriminate]).
  subst t.
  pose proof (get_not_nullish _ _ E2) as Ncs.
  pose proof (get_not_nullish _ _ E5) as Nps.
  assert (K1 : Kcandidates <> Kzero) by discriminate.
  assert (K2 : Kcontent <> Kzero) by discriminate.
  assert (K3 : Kparts <> Kzero) by discriminate.
  assert (K4 : Ktext <> Kzero) by discriminate.
  unfold extractableText.
  rewrite (get_child_named _ K1 E1 Ncs); simpl.
  destruct (get_child _ _ E2 N0) as [-> | [_ [x ->]]];
    [simpl | simpl in E3; injection E3 as <-; discriminate N1].
  rewrite (get_child_named _ K2 E3 N1); simpl.
  rewrite (get_child_named _ K3 E4 Nps); simpl.
  destruct (get_child _ _ E5 N2) as [-> | [_ [x ->]]];
    [simpl | simpl in E6; discriminate E6].
  now rewrite (get_child_named _ K4 E6 eq_refl).
Qed.
End ResponseFacts.

(** C3, as stated, fails: a success response whose body has an empty
    [candidates] array carries no text, and the lookup ends in
    [Found []], not in [ProviderError]. *)
Lemma C3_no_candidates_counterexample :
  ~ (forall typeError fetch key artist album ok body,
        fetch (mkRequest endpoint key (buildPrompt artist album))
        = Response ok body ->
        ok = false \/ lacksText body ->
        exists m, lookupTracks typeError fetch key artist album
                  = ProviderError m).
Proof.
  intros H.
  destruct (H (fun _ => lit "TypeError")
              (fun _ => Response true
                          (Json (VObject [(lit "candidates", VArray [])])))
              (lit "key") (lit "The Beatles") (lit "Abbey Road")
              true (Json (VObject [(lit "candidates", VArray [])]))
              eq_refl (or_intror eq_refl)) as [m Hm].
  vm_compute in Hm; discriminate.
Qed.

Lemma shownMessage_nonempty m : shownMessage m <> [].
Proof. apply message_nonempty. Qed.

Lemma callIncludes_array typeError items p :
  callIncludes typeError (VArray items) p = Normal (arrayIncludes items p).
Proof. reflexivity. Qed.

(** What the chain with its [|| ''] reads is truthy or the empty
    string. *)
Lemma extractText_truthy typeError data t :
  extractText typeError data = Normal t ->
  truthy t = true \/ t = VString [].
Proof.
  unfold extractText.
  destruct (get typeError data Kcandidates) as [cs|]; [|discriminate].
  simpl bind.
  destruct (get typeError cs Kzero) as [c0|]; [|discriminate].
  simpl bind.
  match goal with |- bind ?c _ = _ -> _ => destruct c as [t0|] end;
    [|discriminate].
  simpl; intros H; injection H as <-.
  destruct (truthy t0) eqn:E; auto.
Qed.

(** C3, amended.  A non-success response ends in [ProviderError] with
    the message ["Failed to fetch from Gemini API. Please check your API
    key."].  A success response without text ends as follows, every
    [ProviderError] with a non-empty message (the exception's, or
    ["An error occurred while fetching tracks"] when that is empty):

    - in [ProviderError] when the body is not JSON;
    - in [ProviderError] when reading
      [candidates[0]?.content?.parts[0]?.text] raises;
    - in [Found []] when that chain reads a falsy value, which [|| '']
      turns into the empty text;
    - in [ProviderError] when it reads a number, [true] or an object,
      none of which has [includes];
    - when it reads an array, in [NotFound] if one of the two phrases
      is an element of it, and otherwise in [ProviderError], an array
      having no [split]. *)
Theorem C3_response_without_text
        typeError fetch key artist album ok body :
  fetch (mkRequest endpoint key (buildPrompt artist album))
  = Response ok body ->
  let outcome := lookupTracks typeError fetch key artist album in
  (ok = false -> outcome = ProviderError failedToFetch /\ failedToFetch <> [])
  /\ (ok = true -> forall m,
        body = InvalidJson m ->
        outcome = ProviderError (shownMessage m) /\ shownMessage m <> [])
  /\ (ok = true -> forall data,
        body = Json data -> extractableText data = None ->
        match extractText typeError data with
        | Throw m =>
            outcome = ProviderError (shownMessage m) /\ shownMessage m <> []
        | Normal (VString s) => s = [] /\ outcome = Found []
        | Normal (VArray items) =>
            if arrayIncludes items noInformation
               || arrayIncludes items dontKnow
            then outcome = NotFound
            else
              outcome
              = ProviderError
                  (shownMessage (typeError (NotAFunction (lit "split"))))
              /\ shownMessage (typeError (NotAFunction (lit "split"))) <> []
        | Normal (VBoolean _) | Normal (VNumber _) | Normal (VObject _) =>
            outcome
            = ProviderError
                (shownMessage (typeError (NotAFunction (lit "includes"))))
            /\ shownMessage (typeError (NotAFunction (lit "includes"))) <> []
        | Normal VUndefined | Normal VNull => False
        end).
Proof.
  intros Hf outcome; subst outcome; unfold lookupTracks, attempt.
  rewrite Hf; split; [|split].
  - intros ->; split; [reflexivity|discriminate].
  - intros -> m ->; split; [reflexivity|apply shownMessage_nonempty].
  - intros -> data -> Hl; simpl negb; cbv iota.
    destruct (extractText typeError data) as [t|m] eqn:E; simpl bind;
      [|split; [reflexivity|apply shownMessage_nonempty]].
    destruct t as [| |b|f|s|items|props];
      try (split; [reflexivity|apply shownMessage_nonempty]).
    + apply extractText_truthy in E as [E|E]; discriminate.
    + apply extractText_truthy in E as [E|E]; discriminate.
    + rewrite classify_string; destruct s as [|c s]; [now split|].
      apply extractText_string in E; congruence.
    + unfold classify; rewrite !callIncludes_array.
      destruct (arrayIncludes items noInformation); simpl; [reflexivity|].
      destruct (arrayIncludes items dontKnow); simpl; [reflexivity|].
      split; [reflexivity|apply shownMessage_nonempty].
Qed.

Lemma C3_response_without_text_witness :
  lookupTracks (fun _ => lit "TypeError")
    (fun _ => Response false (InvalidJson []))
    (lit "key") (lit "The Beatles") (lit "Abbey Road")
  = ProviderError failedToFetch
  /\ lookupTracks (fun _ => lit "TypeError")
       (fun _ => Response true (InvalidJson (lit "Unexpected token")))
       (lit "key") (lit "The Beatles") (lit "Abbey Road")
     = ProviderError (lit "Unexpected token")
  /\ lookupTracks (fun _ => lit "TypeError")
       (fun _ => Response true (Json (VObject [])))
       (lit "key") (lit "The Beatles") (lit "Abbey Road")
     = ProviderError (lit "TypeError")
  /\ lookupTracks (fun _ => lit "TypeError")
       (fun _ => Response true
                   (Json (VObject [(lit "candidates", VArray [])])))
       (lit "key") (lit "The Beatles") (lit "Abbey Road")
     = Found []
  /\ lookupTracks (fun _ => lit "TypeError")
       (fun _ => Response true
          (Json (VObject
             [(lit "candidates",
               VArray
                 [VObject
                    [(lit "content",
                      VObject
                        [(lit "parts",
                          VArray [VObject [(lit "text", VNumber false)]])])]])])))
       (lit "key") (lit "The Beatles") (lit "Abbey Road")
     = ProviderError (lit "TypeError").
Proof.
  split; [|split; [|split; [|split]]].
  - apply (C3_response_without_text (fun _ => lit "TypeError")
             (fun _ => Response false (InvalidJson []))
             (lit "key") (lit "The Beatles") (lit "Abbey Road") eq_refl);
      reflexivity.
  - apply (proj1 (proj2
             (C3_response_without_text (fun _ => lit "TypeError")
                (fun _ => Response true (InvalidJson (lit "Unexpected token")))
                (lit "key") (lit "The Beatles") (lit "Abbey Road") eq_refl))
             eq_refl (lit "Unexpected token") eq_refl).
  - apply (proj2 (proj2
             (C3_response_without_text (fun _ => lit "TypeError")
                (fun _ => Response true (Json (VObject [])))
                (lit "key") (lit "The Beatles") (lit "Abbey Road") eq_refl))
             eq_refl (VObject []) eq_refl eq_refl).
  - apply (proj2 (proj2
             (C3_response_without_text (fun _ => lit "TypeError")
                (fun _ => Response true
                            (Json (VObject [(lit "candidates", VArray [])])))
                (lit "key") (lit "The Beatles") (lit "Abbey Road") eq_refl))
             eq_refl (VObject [(lit "candidates", VArray [])])
             eq_refl eq_refl).
  - apply (proj2 (proj2
             (C3_response_without_text (fun _ => lit "TypeError")
                (fun _ => Response true
                   (Json (VObject
                      [(lit "candidates",
                        VArray
                          [VObject
                             [(lit "content",
                               VObject
                                 [(lit "parts",
                                   VArray
                                     [VObject
                                        [(lit "text", VNumber false)]])])]])])))
                (lit "key") (lit "The Beatles") (lit "Abbey Road") eq_refl))
             eq_refl _ eq_refl eq_refl).
Defined.

(** ** The component's state *)

Section StateFacts.
Variable typeError : Fault -> jsstring.
Variable fetch : Request -> FetchResult.

(** Without a key, an artist or an album nothing is requested: only
    the error changes. *)
Lemma fetchTracks_invalid st :
  blank (apiKey st) = true \/ blank (artist st) = true
  \/ blank (album st) = true ->
  tracks (fetchTracks typeError fetch st) = tracks st
  /\ loading (fetchTracks typeError fetch st) = loading st
  /\ error (fetchTracks typeError fetch st) <> [].
Proof.
  intros H; unfold fetchTracks.
  destruct (trim (apiKey st)) eqn:Ek; simpl.
  { repeat split; discriminate. }
  destruct (trim (artist st)) eqn:Ea; simpl.
  { repeat split; discriminate. }
  destruct (trim (album st)) eqn:Eb; simpl.
  { repeat split; discriminate. }
  destruct H as [H | [H | H]]; apply trim_nil_iff in H; congruence.
Qed.

(** With all three, and for a lookup that runs alone, the outcome of
    the lookup is what the state shows when loading ends. *)
Lemma fetchTracks_valid st :
  blank (apiKey st) = false -> blank (artist st) = false ->
  blank (album st) = false ->
  let st' := fetchTracks typeError fetch st in
  loading st' = false
  /\ match lookupTracks typeError fetch (apiKey st) (artist st) (album st)
     with
     | Found l => tracks st' = l /\ error st' = []
     | NotFound => tracks st' = [] /\ error st' = albumNotFound
     | ProviderError m => tracks st' = [] /\ error st' = m
     end.
Proof.
  intros Hk Ha Hb; unfold fetchTracks.
  destruct (trim (apiKey st)) eqn:Ek;
    [apply trim_nil_iff in Ek; congruence|].
  destruct (trim (artist st)) eqn:Ea;
    [apply trim_nil_iff in Ea; congruence|].
  destruct (trim (album st)) eqn:Eb;
    [apply trim_nil_iff in Eb; congruence|].
  simpl.
  destruct (lookupTracks typeError fetch (apiKey st) (artist st) (album st));
    simpl; auto.
Qed.
End StateFacts.

(** * Further properties of the code *)

(** ** Lines *)

Lemma truthy_trim line : truthy_string (trim line) = negb (blank line).
Proof.
  destruct (blank line) eqn:E.
  - apply trim_nil_iff in E; now rewrite E.
  - destruct (trim line) eqn:Et; [|reflexivity].
    apply trim_nil_iff in Et; congruence.
Qed.

Lemma split_nonempty s : split s <> [].
Proof.
  destruct s as [|c s]; simpl; [discriminate|].
  destruct (c =? LF)%N; [discriminate|].
  destruct (split s); discriminate.
Qed.

Lemma split_length s : length (split s) = S (lineFeeds s).
Proof.
  unfold lineFeeds; induction s as [|c s IH]; simpl; [reflexivity|].
  destruct (c =? LF)%N; simpl; [now rewrite IH|].
  destruct (split s) eqn:E; [now apply split_nonempty in E|exact IH].
Qed.

Lemma split_no_LF s : forall line, In line (split s) -> ~ In LF line.
Proof.
  induction s as [|c s IH]; simpl; intros line.
  - intros [<- | []]; auto.
  - destruct (c =? LF)%N eqn:E.
    + intros [<- | H]; [auto|now apply IH].
    + assert (Hc : c <> LF) by (now apply N.eqb_neq).
      destruct (split s) as [|l ls] eqn:Es.
      * intros [<- | []] [Hin | []]; contradiction.
      * intros [<- | H] Hin.
        -- destruct Hin as [Hin | Hin]; [contradiction|].
           apply (IH l); [now left|exact Hin].
        -- apply (IH line); [now right|exact Hin].
Qed.

Lemma trim_parts s :
  exists a b, s = a ++ trim s ++ b /\ blank a = true /\ blank b = true.
Proof.
  destruct (trimStart_split s) as [a [Ha Hba]].
  destruct (trimEnd_split (trimStart s)) as [b [Hb Hbb]].
  exists a, b; unfold trim; now rewrite <- Hb.
Qed.

Lemma In_trim c s : In c (trim s) -> In c s.
Proof.
  intros H; destruct (trim_parts s) as [a [b [Hs _]]]; rewrite Hs.
  apply in_or_app; right; apply in_or_app; now left.
Qed.

Lemma trimStart_trim s : trimStart (trim s) = trim s.
Proof.
  unfold trim; destruct (trimStart s) as [|c r] eqn:E; [reflexivity|].
  pose proof (trimStart_head _ E) as Hc.
  rewrite trimEnd_cons by exact Hc; simpl; now rewrite Hc.
Qed.

Lemma trim_idem s : trim (trim s) = trim s.
Proof.
  unfold trim at 1; rewrite trimStart_trim; apply trim_trimEnd.
Qed.

Lemma length_filter_le (A : Type) (f : A -> bool) l :
  (length (filter f l) <= length l)%nat.
Proof.
  induction l as [|x l IH]; simpl; [lia|]; destruct (f x); simpl; lia.
Qed.

Lemma retained_blank text :
  retained text = filter (fun line => negb (blank line)) (split text).
Proof.
  unfold retained; apply filter_ext; intros line; apply truthy_trim.
Qed.

(** One track for each line that is not blank: the last [.filter] of
    the chain never removes a track, and a text with [n] line feeds
    gives at most [n + 1] tracks. *)
Theorem one_track_per_nonblank_line text :
  length (trackList text)
  = length (filter (fun line => negb (blank line)) (split text))
  /\ (length (trackList text) <= lineFeeds text + 1)%nat.
Proof.
  rewrite trackList_length, retained_blank; split; [reflexivity|].
  pose proof (length_filter_le (fun line => negb (blank line)) (split text)).
  rewrite split_length in H; lia.
Qed.

Lemma name_parseLine_In c line index :
  In c (name (parseLine line index)) -> In c line.
Proof.
  unfold parseLine.
  destruct (matchLine (trim line)) as [[d r]|] eqn:E; simpl; intros H.
  - destruct (matchLine_sound _ E) as [w [Hs _]].
    apply In_trim; rewrite Hs.
    apply in_or_app; right; right; apply in_or_app; right.
    now apply In_trim.
  - now apply In_trim.
Qed.

(** Every track name is trimmed (no white space at either end) and is
    part of one line: it holds no line feed. *)
Theorem track_names_trimmed_single_line text :
  Forall (fun t => trim (name t) = name t /\ ~ In LF (name t))
         (trackList text).
Proof.
  rewrite trackList_unfiltered; apply Forall_forall; intros t Ht.
  apply In_mapi_from in Ht as [line [j [Hl ->]]]; split.
  - unfold parseLine; destruct (matchLine (trim line)) as [[d r]|];
      simpl; apply trim_idem.
  - intros H; apply name_parseLine_In in H.
    apply filter_In in Hl as [Hl _]; now apply (split_no_LF _ _ Hl).
Qed.

(** ** The pattern, line by line *)

(** A longest run that the continuation accepts is the one a greedy
    quantifier settles on. *)
Lemma star_first (R : Type) (p : char -> bool)
      (k : jsstring -> jsstring -> option R) a : forall acc b r,
  forallb p a = true ->
  match b with [] => True | c :: _ => p c = false end ->
  k (rev acc ++ a) b = Some r ->
  star p k acc (a ++ b) = Some r.
Proof.
  induction a as [|c a IH]; intros acc b r Ha Hb Hk; simpl in *.
  - rewrite app_nil_r in Hk.
    destruct b as [|c b]; simpl; [exact Hk|now rewrite Hb].
  - apply andb_true_iff in Ha as [-> Ha].
    rewrite (IH (c :: acc) b r Ha Hb); [reflexivity|].
    simpl; now rewrite <- app_assoc.
Qed.

Lemma plus_first (R : Type) (p : char -> bool)
      (k : jsstring -> jsstring -> option R) a b r :
  a <> [] -> forallb p a = true ->
  match b with [] => True | c :: _ => p c = false end ->
  k a b = Some r ->
  plus p k (a ++ b) = Some r.
Proof.
  destruct a as [|c a]; [congruence|]; simpl; intros _ Ha Hb Hk.
  apply andb_true_iff in Ha as [-> Ha].
  now apply star_first.
Qed.

Lemma span_spec p s :
  let (a, b) := span p s in
  s = a ++ b /\ forallb p a = true
  /\ match b with [] => True | c :: _ => p c = false end.
Proof.
  induction s as [|c s IH]; simpl; [auto|].
  destruct (p c) eqn:E.
  - destruct (span p s) as [a b]; destruct IH as [-> [Ha Hb]].
    simpl; rewrite E, Ha; auto.
  - simpl; auto.
Qed.

(** Where the digits end is determined by the string. *)
Lemma digits_end_inj d : forall d' c c' x x',
  forallb isDigit d = true -> forallb isDigit d' = true ->
  isDigit c = false -> isDigit c' = false ->
  d ++ c :: x = d' ++ c' :: x' -> d = d' /\ c = c' /\ x = x'.
Proof.
  induction d as [|a d IH]; intros [|a' d'] c c' x x' Hd Hd' Hc Hc' H;
    simpl in *.
  - injection H as -> ->; auto.
  - injection H as -> _; apply andb_true_iff in Hd' as [Hd' _]; congruence.
  - injection H as -> _; apply andb_true_iff in Hd as [Hd _]; congruence.
  - apply andb_true_iff in Hd as [_ Hd]; apply andb_true_iff in Hd' as [_ Hd'].
    injection H as -> H.
    destruct (IH _ _ _ _ _ Hd Hd' Hc Hc' H) as [-> [-> ->]]; auto.
Qed.

(** White space cannot reach past a character that is not white space. *)
Lemma blank_prefix w' : forall w r r' x r0,
  blank w = true -> blank w' = true ->
  r = x :: r0 -> isSpace x = false ->
  w ++ r = w' ++ r' -> exists u, r' = u ++ r.
Proof.
  induction w' as [|c' w' IH]; intros w r r' x r0 Hw Hw' Hr Hx H; simpl in *.
  - exists w; now rewrite H.
  - apply andb_true_iff in Hw' as [Hc' Hw'].
    destruct w as [|c w]; simpl in *.
    + subst r; injection H as -> _; congruence.
    + apply andb_true_iff in Hw as [_ Hw]; injection H as _ H.
      exact (IH _ _ _ _ _ Hw Hw' Hr Hx H).
Qed.

Lemma afterDot_scan d x :
  trimEnd x = x ->
  afterDot d x
  = (let r := trimStart x in
     if truthy_string r && forallb isAny r then Some (d, r) else None).
Proof.
  intros Hx; destruct (trimStart_split x) as [w [Hs Hw]].
  destruct (trimStart x) as [|c r] eqn:Er; simpl.
  - apply trimStart_nil_iff, trimEnd_nil_iff in Er.
    rewrite Hx in Er; now subst x.
  - pose proof (trimStart_head _ Er) as Hc.
    destruct (isAny c && forallb isAny r) eqn:Ea.
    + rewrite Hs; unfold afterDot; apply star_first; [exact Hw|exact Hc|].
      simpl app; rewrite <- (app_nil_r (c :: r)) at 1.
      apply plus_first; [discriminate|exact Ea|exact I|reflexivity].
    + destruct (afterDot d x) as [[d' r']|] eqn:E; [exfalso|reflexivity].
      destruct (afterDot_sound _ _ E) as [_ [w' [Hs' [Hw' [_ Ha']]]]].
      rewrite Hs in Hs'.
      destruct (blank_prefix _ _ _ Hw Hw' eq_refl Hc Hs') as [u ->].
      rewrite forallb_app in Ha'; apply andb_true_iff in Ha' as [_ Ha'].
      simpl in Ha'; congruence.
Qed.

Lemma DOT_not_digit : isDigit DOT = false.
Proof. reflexivity. Qed.

(** On a string without white space at its end, and so on every trimmed
    line, the backtracking pattern finds what one scan from the left
    finds: a match never depends on giving characters back. *)
Theorem matchLine_is_one_scan t :
  trimEnd t = t -> matchLine t = scanLine t.
Proof.
  intros Ht; unfold scanLine.
  pose proof (span_spec isDigit t) as Hsp.
  destruct (span isDigit t) as [d b]; destruct Hsp as [Hs [Hd Hb]].
  assert (Hnone : forall d' r', matchLine t = Some (d', r') ->
            exists w, d = d' /\ b = DOT :: w ++ r' /\ d' <> []).
  { intros d' r' E; destruct (matchLine_sound _ E) as [w [Hs' [Hn [Hd' _]]]].
    exists w; rewrite Hs in Hs'; destruct b as [|c x].
    - exfalso; rewrite app_nil_r in Hs'; subst d.
      rewrite forallb_app in Hd; apply andb_true_iff in Hd as [_ Hd].
      simpl in Hd; discriminate.
    - destruct (@digits_end_inj d d' c DOT x (w ++ r')
                  Hd Hd' Hb DOT_not_digit Hs') as [-> [-> ->]]; auto. }
  destruct d as [|c d].
  - destruct (matchLine t) as [[d' r']|] eqn:E; [|reflexivity].
    destruct (Hnone _ _ eq_refl) as [w [<- [_ Hn]]]; congruence.
  - destruct b as [|dot x].
    + destruct (matchLine t) as [[d' r']|] eqn:E; [|reflexivity].
      destruct (Hnone _ _ eq_refl) as [w [_ [Hb' _]]]; discriminate.
    + destruct (dot =? DOT)%N eqn:Edot.
      * apply N.eqb_eq in Edot; subst dot.
        rewrite Hs, matchLine_unfold, plus_digits_dot by (auto; discriminate).
        apply afterDot_scan.
        rewrite Hs, trimEnd_digits_dot in Ht by exact Hd.
        apply app_inv_head in Ht; now injection Ht.
      * destruct (matchLine t) as [[d' r']|] eqn:E; [|reflexivity].
        destruct (Hnone _ _ eq_refl) as [w [_ [Hb' _]]].
        injection Hb' as -> _; now rewrite N.eqb_refl in Edot.
Qed.

Lemma matchLine_is_one_scan_witness :
  matchLine (lit "12.  Sun King") = Some (lit "12", lit "Sun King").
Proof.
  rewrite (@matchLine_is_one_scan (lit "12.  Sun King")); reflexivity.
Defined.

Lemma isAny_no_terminator l :
  forallb isAny l = true -> existsb isLineTerminator l = false.
Proof.
  induction l as [|c l IH]; simpl; [reflexivity|].
  unfold isAny at 1; intros H; apply andb_true_iff in H as [Hc Hl].
  apply negb_true_iff in Hc; rewrite Hc; now apply IH.
Qed.

(** A line terminator other than the line feed (a carriage return, U+2028
    or U+2029) in the text after the number makes the line unnumbered:
    the whole trimmed line becomes the name, the rank the position. *)
Theorem line_terminator_in_text_unnumbers text n line digits w x rest :
  nth_error (retained text) n = Some line ->
  trim line = digits ++ DOT :: w ++ x :: rest ->
  forallb isDigit digits = true -> blank w = true -> isSpace x = false ->
  existsb isLineTerminator rest = true ->
  nth_error (trackList text) n
  = Some {| number := Fin (Z.of_nat n + 1); name := trim line |}.
Proof.
  intros Hn Hs Hd Hw Hx Hr; rewrite (trackList_nth _ _ Hn); f_equal.
  apply parseLine_unnumbered.
  destruct (matchLine (trim line)) as [[d' r']|] eqn:E; [exfalso|reflexivity].
  destruct (matchLine_sound _ E) as [w' [Hs' [_ [Hd' [Hw' [_ Ha]]]]]].
  rewrite Hs in Hs'; apply digits_dot_inj in Hs' as [_ Hs']; [|exact Hd|exact Hd'].
  destruct (blank_prefix _ _ _ Hw Hw' eq_refl Hx Hs') as [u ->].
  rewrite forallb_app in Ha; apply andb_true_iff in Ha as [_ Ha].
  simpl in Ha; apply andb_true_iff in Ha as [_ Ha].
  apply isAny_no_terminator in Ha; congruence.
Qed.

Lemma line_terminator_in_text_unnumbers_witness :
  nth_error (trackList (lit "1. Come" ++ [CR] ++ lit "Together")) 0
  = Some {| number := Fin 1;
            name := lit "1. Come" ++ [CR] ++ lit "Together" |}.
Proof.
  apply (@line_terminator_in_text_unnumbers
           (lit "1. Come" ++ [CR] ++ lit "Together") 0%nat
           (lit "1. Come" ++ [CR] ++ lit "Together")
           (lit "1") (lit " ") 67%N (lit "ome" ++ [CR] ++ lit "Together"));
    reflexivity.
Defined.

(** A line that is nothing but digits and a period is not taken for a
    numbered line: it stays, named by its own text, at its rank. *)
Theorem numbering_only_line_names_itself text n line digits :
  nth_error (retained text) n = Some line ->
  forallb isDigit digits = true ->
  trim line = digits ++ [DOT] ->
  nth_error (trackList text) n
  = Some {| number := Fin (Z.of_nat n + 1); name := digits ++ [DOT] |}.
Proof.
  intros Hn Hd Hs; rewrite (trackList_nth _ _ Hn), <- Hs; f_equal.
  apply parseLine_unnumbered.
  destruct (matchLine (trim line)) as [[d' r']|] eqn:E; [exfalso|reflexivity].
  destruct (matchLine_sound _ E) as [w' [Hs' [_ [Hd' [_ [Hr _]]]]]].
  rewrite Hs in Hs'; apply digits_dot_inj in Hs' as [_ Hs']; [|exact Hd|exact Hd'].
  destruct w'; [destruct r'; [congruence|discriminate]|discriminate].
Qed.

Lemma numbering_only_line_names_itself_witness :
  nth_error (trackList (lit "Intro" ++ [LF] ++ lit " 17. ")) 1
  = Some (T 2 "17.").
Proof.
  apply (@numbering_only_line_names_itself
           (lit "Intro" ++ [LF] ++ lit " 17. ") 1%nat (lit " 17. ") (lit "17"));
    reflexivity.
Defined.

(** ** Track numbers *)

Lemma mathInt_bound ds : forall acc,
  forallb isDigit ds = true -> (0 <= acc)%Z ->
  (mathInt acc ds < (acc + 1) * 10 ^ Z.of_nat (length ds))%Z.
Proof.
  induction ds as [|d ds IH]; intros acc Hd Ha.
  - simpl; lia.
  - cbn [mathInt forallb length] in *.
    apply andb_true_iff in Hd as [Hc Hd]; apply isDigit_range in Hc.
    specialize (IH (10 * acc + (Z.of_N d - 48))%Z Hd ltac:(lia)).
    rewrite Nat2Z.inj_succ, Z.pow_succ_r by lia.
    assert (0 < 10 ^ Z.of_nat (length ds))%Z by (apply Z.pow_pos_nonneg; lia).
    nia.
Qed.

(** A line numbered with at most fifteen digits gets exactly the number
    written, leading zeros apart, as position: below 10^15 no rounding
    to a double occurs. *)
Theorem short_number_is_kept_exactly text n line digits rest :
  nth_error (retained text) n = Some line ->
  matchLine (trim line) = Some (digits, rest) ->
  (length digits <= 15)%nat ->
  nth_error (trackList text) n
  = Some {| number := Fin (mathInt 0 digits); name := trim rest |}
  /\ (0 <= mathInt 0 digits < 10 ^ 15)%Z.
Proof.
  intros Hn Hm Hl.
  destruct (matchLine_sound _ Hm) as [w [_ [_ [Hd _]]]].
  pose proof (@mathInt_bound digits 0%Z Hd ltac:(lia)) as Hb.
  pose proof (@mathInt_nonneg digits 0%Z Hd ltac:(lia)) as Hge.
  assert (10 ^ Z.of_nat (length digits) <= 10 ^ 15)%Z
    by (apply Z.pow_le_mono_r; lia).
  split; [|lia].
  rewrite (trackList_nth _ _ Hn); unfold parseLine; rewrite Hm.
  now rewrite parseInt_exact by lia.
Qed.

Lemma short_number_is_kept_exactly_witness :
  nth_error (trackList (lit "Intro" ++ [LF] ++ lit "007. Skyfall")) 1
  = Some (T 7 "Skyfall").
Proof.
  apply (@short_number_is_kept_exactly
           (lit "Intro" ++ [LF] ++ lit "007. Skyfall") 1%nat
           (lit "007. Skyfall") (lit "007") (lit "Skyfall"));
    [reflexivity|reflexivity|simpl; lia].
Defined.

(** Past 2^53 the number is rounded to the nearest double. *)
Lemma parseInt_rounds : parseInt (lit "9007199254740993") = Fin 9007199254740992.
Proof. vm_compute. reflexivity. Qed.

(** ** The earlier normalizer *)

Lemma stripNumbering_In c line : In c (stripNumbering line) -> In c line.
Proof.
  unfold stripNumbering; destruct (leadingNumber line) as [rest|] eqn:E;
    [|auto].
  destruct (leadingNumber_some _ E) as [d [x [-> [_ [_ ->]]]]]; intros H.
  apply in_or_app; right; right.
  destruct (trimStart_split x) as [w [Hx _]]; rewrite Hx.
  apply in_or_app; now right.
Qed.

(** Every name the earlier normalizer gives is non-empty, trimmed and
    free of line feeds. *)
Theorem trackNames_nonempty_trimmed text :
  Forall (fun n => n <> [] /\ trim n = n /\ ~ In LF n) (trackNames text).
Proof.
  apply Forall_forall; intros n Hn; unfold trackNames in Hn.
  apply filter_In in Hn as [Hn Hl].
  apply in_map_iff in Hn as [line [<- Hline]]; repeat split.
  - destruct (trim (stripNumbering line)); [discriminate|discriminate].
  - apply trim_idem.
  - intros H; apply In_trim, stripNumbering_In in H.
    apply filter_In in Hline as [Hline _]; now apply (split_no_LF _ _ Hline).
Qed.

Lemma leadingNumber_digits_dot d x :
  d <> [] -> forallb isDigit d = true ->
  leadingNumber (d ++ DOT :: x) = Some (trimStart x).
Proof.
  intros Hn Hd; unfold leadingNumber.
  rewrite plus_digits_dot by assumption; apply star_space_all.
Qed.

(** The earlier normalizer drops a retained line exactly when the line
    is digits, a period and white space; so it never gives more names
    than the current one gives tracks. *)
Theorem trackNames_drops_numbering_only text :
  (forall line,
      In line (retained text) ->
      (trim (stripNumbering line) = []
       <-> exists d w, line = d ++ DOT :: w /\ d <> []
                       /\ forallb isDigit d = true /\ blank w = true))
  /\ (length (trackNames text) <= length (trackList text))%nat.
Proof.
  split.
  - intros line Hl; split.
    + unfold stripNumbering; destruct (leadingNumber line) as [rest|] eqn:E.
      * destruct (leadingNumber_some _ E) as [d [x [-> [Hn [Hd ->]]]]].
        intros H; exists d, x; repeat split; auto.
        apply trim_nil_iff in H.
        destruct (trimStart_split x) as [w [Hx Hw]].
        rewrite Hx, blank_app, Hw; exact H.
      * intros H; now apply retained_not_blank in Hl.
    + intros [d [w [-> [Hn [Hd Hw]]]]]; unfold stripNumbering.
      rewrite leadingNumber_digits_dot by assumption.
      rewrite trim_trimStart; now apply trim_nil_iff.
  - rewrite trackList_length; unfold trackNames.
    etransitivity; [apply length_filter_le|]; now rewrite length_map.
Qed.

(** ** Windows line endings *)

Lemma parseLine_trim_ext x y index :
  trim x = trim y -> parseLine x index = parseLine y index.
Proof. intros H; unfold parseLine; now rewrite H. Qed.

Lemma split_crlf s :
  Forall2 (fun x y => x = y \/ x = y ++ [CR]) (split (crlf s)) (split s).
Proof.
  induction s as [|c s IH]; simpl.
  - constructor; [now left|constructor].
  - destruct (c =? LF)%N eqn:E; simpl.
    + constructor; [now right|exact IH].
    + rewrite E.
      destruct (split (crlf s)) as [|l ls] eqn:El;
        [now apply split_nonempty in El|].
      destruct (split s) as [|l' ls'] eqn:El'; [inversion IH|].
      inversion IH as [|? ? ? ? [-> | ->] Hrest]; subst;
        constructor; auto.
Qed.

Lemma tracks_of_like_lines la : forall lb i,
  Forall2 (fun x y => trim x = trim y) la lb ->
  mapi_from i parseLine (filter (fun line => truthy_string (trim line)) la)
  = mapi_from i parseLine (filter (fun line => truthy_string (trim line)) lb).
Proof.
  induction la as [|x la IH]; intros lb i H; inversion H as [|? y ? lb' Hxy Hr];
    subst; simpl; [reflexivity|].
  rewrite Hxy; destruct (truthy_string (trim y)); simpl; [|now apply IH].
  rewrite (parseLine_trim_ext x y i Hxy); f_equal; now apply IH.
Qed.

Lemma startsWith_crlf p : forall s,
  forallb plainChar p = true -> startsWith (crlf s) p = startsWith s p.
Proof.
  induction p as [|x p IH]; intros s Hp; simpl; [reflexivity|].
  simpl in Hp; apply andb_true_iff in Hp as [Hx Hp].
  unfold plainChar in Hx; apply andb_true_iff in Hx as [H1 H2].
  apply negb_true_iff in H1, H2.
  destruct s as [|c s]; simpl; [reflexivity|].
  destruct (c =? LF)%N eqn:E; simpl.
  - apply N.eqb_eq in E; subst c; now rewrite H1, H2.
  - now rewrite IH.
Qed.

Lemma includes_crlf p s :
  p <> [] -> forallb plainChar p = true ->
  includes (crlf s) p = includes s p.
Proof.
  intros Hn Hp; induction s as [|c s IH]; [reflexivity|].
  change (includes (c :: s) p) with (startsWith (c :: s) p || includes s p).
  rewrite <- (startsWith_crlf _ (c :: s) Hp), <- IH; simpl.
  destruct (c =? LF)%N; [|reflexivity].
  destruct p as [|x p]; [congruence|]; simpl in *.
  apply andb_true_iff in Hp as [Hx _].
  unfold plainChar in Hx; apply andb_true_iff in Hx as [H1 H2].
  apply negb_true_iff in H1, H2; now rewrite H1, H2.
Qed.

(** Line endings do not matter: a text whose lines end in a carriage
    return and a line feed has the outcome of the text whose lines end in
    a line feed. *)
Theorem normalize_crlf text : normalize (crlf text) = normalize text.
Proof.
  unfold normalize, classified.
  rewrite !includes_crlf by (reflexivity || discriminate).
  destruct (includes text noInformation || includes text dontKnow);
    [reflexivity|f_equal].
  rewrite !trackList_unfiltered; unfold mapi, retained.
  apply tracks_of_like_lines.
  eapply Forall2_impl; [|apply split_crlf].
  intros x y [-> | ->]; [reflexivity|now apply trim_app_blank].
Qed.

(** ** Reading the response *)

Section ReadingFacts.
Variable typeError : Fault -> jsstring.
Variable fetch : Request -> FetchResult.

Lemma child_get v k v' :
  child v k = Some v' -> get typeError v k = Normal v'.
Proof.
  destruct v; simpl; try discriminate.
  - destruct k; try discriminate.
    destruct items; simpl; [discriminate|congruence].
  - destruct (lookup (keyName k) props); congruence.
Qed.

Lemma child_of_holder v k v' : child v k = Some v' -> nullish v = false.
Proof. destruct v; simpl; try discriminate; reflexivity. Qed.

Lemma extractText_of_text data s :
  extractableText data = Some s ->
  extractText typeError data = Normal (VString s).
Proof.
  unfold extractableText, andThen; intros H.
  destruct (child data Kcandidates) as [cs|] eqn:E1; [|discriminate].
  destruct (child cs Kzero) as [c0|] eqn:E2; [|discriminate].
  destruct (child c0 Kcontent) as [ct|] eqn:E3; [|discriminate].
  destruct (child ct Kparts) as [ps|] eqn:E4; [|discriminate].
  destruct (child ps Kzero) as [p0|] eqn:E5; [|discriminate].
  destruct (child p0 Ktext) as [t|] eqn:E6; [|discriminate].
  destruct t; try discriminate; injection H as ->.
  unfold extractText.
  rewrite (child_get _ _ E1); simpl bind.
  rewrite (child_get _ _ E2); simpl bind.
  rewrite (child_of_holder _ _ E3).
  rewrite (child_get _ _ E3); simpl bind.
  rewrite (child_of_holder _ _ E4).
  rewrite (child_get _ _ E4); simpl bind.
  rewrite (child_get _ _ E5); simpl bind.
  rewrite (child_of_holder _ _ E6).
  rewrite (child_get _ _ E6); simpl bind.
  destruct s; reflexivity.
Qed.

Lemma classify_never_error t m : classify typeError t <> Normal (ProviderError m).
Proof.
  unfold classify.
  destruct (callIncludes typeError t noInformation) as [a|]; simpl;
    [|discriminate].
  destruct a; simpl; [discriminate|].
  destruct (callIncludes typeError t dontKnow) as [b|]; simpl;
    [|discriminate].
  destruct b; [discriminate|]; destruct t; discriminate.
Qed.

Lemma lookup_error_nonempty key artist album m :
  lookupTracks typeError fetch key artist album = ProviderError m -> m <> [].
Proof.
  unfold lookupTracks.
  destruct (attempt typeError fetch key artist album) as [o|m'] eqn:E.
  - intros ->; exfalso; unfold attempt in E.
    destruct (fetch _) as [|ok body]; [discriminate|].
    destruct (negb ok); [discriminate|].
    destruct body as [|data]; [discriminate|].
    destruct (extractText typeError data) as [t|]; simpl in E; [|discriminate].
    now apply classify_never_error in E.
  - intros H; injection H as <-; apply message_nonempty.
Qed.
End ReadingFacts.

(** A success response that carries the text [s], wherever else its
    body holds what, ends as the normalizer ends on [s]. *)
Theorem lookup_normalizes_the_text typeError fetch key artist album data s :
  fetch (mkRequest endpoint key (buildPrompt artist album))
  = Response true (Json data) ->
  extractableText data = Some s ->
  lookupTracks typeError fetch key artist album = normalize s.
Proof.
  intros Hf Hs; unfold lookupTracks, attempt; rewrite Hf; simpl negb; cbv iota.
  rewrite (extractText_of_text typeError _ Hs); simpl bind.
  now rewrite classify_string.
Qed.

Lemma lookup_normalizes_the_text_witness :
  lookupTracks (fun _ => [])
    (fun _ => Response true
       (Json (VObject
          [(lit "usageMetadata", VNumber false);
           (lit "candidates",
            VArray
              [VObject
                 [(lit "finishReason", VString (lit "STOP"));
                  (lit "content",
                   VObject
                     [(lit "role", VString (lit "model"));
                      (lit "parts",
                       VArray [VObject [(lit "text", VString (lit "1. Help!"))];
                               VObject [(lit "text", VString (lit "2. No"))]])])];
               VNull])])))
    (lit "key") (lit "The Beatles") (lit "Help!")
  = Found [T 1 "Help!"].
Proof.
  eapply (@lookup_normalizes_the_text _ _ _ _ _ _ (lit "1. Help!"));
    reflexivity.
Defined.

Lemma lookupTracksLegacy_answer typeError fetch key artist album rawText :
  fetch (mkRequest endpoint key (buildPromptLegacy artist album))
  = Response true (Json (answer rawText)) ->
  classified rawText = true ->
  lookupTracksLegacy typeError fetch key artist album = NoAlbum.
Proof.
  intros H Hc; unfold lookupTracksLegacy, attemptLegacy.
  rewrite H; simpl negb; cbv iota.
  rewrite extractText_answer; simpl bind.
  unfold classifyLegacy; simpl; unfold classified in Hc.
  destruct (includes rawText noInformation); simpl; [reflexivity|].
  simpl in Hc; now rewrite Hc.
Qed.

(** A provider that sends the prompt back is taken to know nothing, in
    either version: the prompt quotes the sentence that the normalizer
    looks for. *)
Theorem echoed_prompt_is_not_found typeError key artist album :
  lookupTracks typeError
    (fun request => Response true (Json (answer (prompt request))))
    key artist album
  = NotFound
  /\ lookupTracksLegacy typeError
       (fun request => Response true (Json (answer (prompt request))))
       key artist album
     = NoAlbum.
Proof.
  split.
  - rewrite (@lookupTracks_answer typeError _ key artist album
               (buildPrompt artist album) eq_refl).
    unfold normalize, classified.
    assert (H : includes (buildPrompt artist album) noInformation = true).
    { apply includes_iff; unfold buildPrompt; find_phrase. }
    now rewrite H.
  - apply (@lookupTracksLegacy_answer typeError _ key artist album
             (buildPromptLegacy artist album) eq_refl).
    unfold classified.
    assert (H : includes (buildPromptLegacy artist album) noInformation = true).
    { apply includes_iff; unfold buildPromptLegacy; find_phrase. }
    now rewrite H.
Qed.

(** The prompt does not tell where the album ends and the artist
    begins: inputs are pasted in as typed, and two different pairs can
    give one prompt. *)
Theorem prompt_is_ambiguous a b c :
  buildPrompt (b ++ [QUOTE] ++ lit " by " ++ c) a
  = buildPrompt c (a ++ [QUOTE] ++ lit " by " ++ b)
  /\ a <> a ++ [QUOTE] ++ lit " by " ++ b.
Proof.
  split.
  - unfold buildPrompt; now rewrite <- !app_assoc.
  - intros H; apply (f_equal (@length char)) in H.
    rewrite !length_app in H; simpl in H; lia.
Qed.

(** ** The two lookups *)

(** Answered alike, the earlier lookup and the current one end alike:
    in an error with the same message, in no album, or in the names and
    the tracks of one and the same text. *)
Theorem lookups_end_alike typeError fetch fetch' key artist album :
  fetch (mkRequest endpoint key (buildPromptLegacy artist album))
  = fetch' (mkRequest endpoint key (buildPrompt artist album)) ->
  match lookupTracksLegacy typeError fetch key artist album,
        lookupTracks typeError fetch' key artist album with
  | Failure m, ProviderError m' => m = m'
  | NoAlbum, NotFound => True
  | FoundNames names, Found l =>
      exists s, names = trackNames s /\ l = trackList s
  | _, _ => False
  end.
Proof.
  intros H; unfold lookupTracksLegacy, lookupTracks, attemptLegacy, attempt.
  rewrite H; destruct (fetch' _) as [m|ok body]; [reflexivity|].
  destruct ok; simpl; [|reflexivity].
  destruct body as [m|data]; [reflexivity|].
  destruct (extractText typeError data) as [t|m]; simpl; [|reflexivity].
  unfold classifyLegacy, classify.
  destruct (callIncludes typeError t noInformation) as [a|m]; simpl;
    [|reflexivity].
  destruct a; simpl; [exact I|].
  destruct (callIncludes typeError t dontKnow) as [b|m]; simpl;
    [|reflexivity].
  destruct b; [exact I|].
  destruct t; try reflexivity; now eexists.
Qed.

Lemma lookups_end_alike_witness :
  match lookupTracksLegacy (fun _ => [])
          (fun _ => Response true (Json (answer (lit "1. Help!"))))
          (lit "key") (lit "The Beatles") (lit "Help!"),
        lookupTracks (fun _ => [])
          (fun _ => Response true (Json (answer (lit "1. Help!"))))
          (lit "key") (lit "The Beatles") (lit "Help!") with
  | FoundNames names, Found l =>
      exists s, names = trackNames s /\ l = trackList s
  | _, _ => False
  end.
Proof.
  exact (@lookups_end_alike (fun _ => [])
           (fun _ => Response true (Json (answer (lit "1. Help!"))))
           (fun _ => Response true (Json (answer (lit "1. Help!"))))
           (lit "key") (lit "The Beatles") (lit "Help!") eq_refl).
Defined.

(** ** The component's state, further *)

(** A blank key, artist or album stops the lookup before any request:
    whatever the provider would answer, only the error changes, the key
    being checked first; tracks of an earlier lookup stay in place. *)
Theorem fetchTracks_rejects_blank_fields typeError fetch st :
  (blank (apiKey st) = true ->
   fetchTracks typeError fetch st
   = setError (lit "Please enter your Gemini API key") st)
  /\ (blank (apiKey st) = false ->
      blank (artist st) = true \/ blank (album st) = true ->
      fetchTracks typeError fetch st
      = setError (lit "Please enter both artist and album name") st).
Proof.
  unfold fetchTracks; rewrite !truthy_trim, !negb_involutive; split.
  - now intros ->.
  - intros -> [-> | ->]; [reflexivity|now rewrite orb_true_r].
Qed.

Lemma fetchTracks_rejects_blank_fields_witness :
  fetchTracks (fun _ => [])
    (fun _ => Response true (Json (answer (lit "1. Help!"))))
    (mkState (lit "  ") false (lit "The Beatles") (lit "Help!")
             [T 1 "Old"] false [])
  = mkState (lit "  ") false (lit "The Beatles") (lit "Help!")
            [T 1 "Old"] false (lit "Please enter your Gemini API key")
  /\ fetchTracks (fun _ => [])
       (fun _ => Response true (Json (answer (lit "1. Help!"))))
       (mkState (lit "key") false (lit "The Beatles") [9%N]
                [T 1 "Old"] false [])
     = mkState (lit "key") false (lit "The Beatles") [9%N]
               [T 1 "Old"] false
               (lit "Please enter both artist and album name").
Proof.
  split.
  - apply (proj1 (fetchTracks_rejects_blank_fields (fun _ => [])
             (fun _ => Response true (Json (answer (lit "1. Help!"))))
             (mkState (lit "  ") false (lit "The Beatles") (lit "Help!")
                      [T 1 "Old"] false []))); reflexivity.
  - apply (proj2 (fetchTracks_rejects_blank_fields (fun _ => [])
             (fun _ => Response true (Json (answer (lit "1. Help!"))))
             (mkState (lit "key") false (lit "The Beatles") [9%N]
                      [T 1 "Old"] false [])));
      [reflexivity|right; reflexivity].
Defined.

(** The provider is asked once, at the fixed endpoint, with the key as
    typed and the prompt of the artist and album as typed: two providers
    that answer this one request alike leave the same state. *)
Theorem fetchTracks_asks_once typeError fetch fetch' st :
  fetch (requestOf st) = fetch' (requestOf st) ->
  fetchTracks typeError fetch st = fetchTracks typeError fetch' st.
Proof.
  unfold requestOf; intros H.
  unfold fetchTracks, lookupTracks, attempt; now rewrite H.
Qed.

Lemma fetchTracks_asks_once_witness :
  fetchTracks (fun _ => [])
    (fun r => if eqs (x_goog_api_key r) (lit " key ")
              then Response true (Json (answer (lit "1. Help!")))
              else Rejected (lit "no"))
    (mkState (lit " key ") false (lit "The Beatles") (lit "Help!") [] false [])
  = fetchTracks (fun _ => [])
      (fun _ => Response true (Json (answer (lit "1. Help!"))))
      (mkState (lit " key ") false (lit "The Beatles") (lit "Help!") [] false []).
Proof.
  apply fetchTracks_asks_once; reflexivity.
Defined.

(** The two halves of a lookup with all three fields filled in.  The
    first half leaves the page loading, with no error and no tracks.
    The second half, on whatever state the page is in when the response
    is handled, leaves the inputs alone, ends loading and sets one
    thing only: the tracks on [Found], the error on [NotFound] and on
    [ProviderError], whose message is never empty.  So when the page
    shows neither error nor tracks at that moment, as it does when no
    other event came in between, it then shows the tracks exactly on a
    non-empty [Found], the error exactly on [NotFound] and
    [ProviderError], and never both.  A lookup that runs alone is the
    first half followed by the second. *)
Theorem lookup_in_two_halves typeError fetch st :
  blank (apiKey st) = false -> blank (artist st) = false ->
  blank (album st) = false ->
  let outcome :=
    lookupTracks typeError fetch (apiKey st) (artist st) (album st) in
  (loading (beginLookup st) = true
   /\ errorShown (beginLookup st) = false
   /\ tracksShown (beginLookup st) = false)
  /\ fetchTracks typeError fetch st = finishLookup outcome (beginLookup st)
  /\ forall st2,
       let st' := finishLookup outcome st2 in
       (apiKey st' = apiKey st2 /\ showKey st' = showKey st2
        /\ artist st' = artist st2 /\ album st' = album st2
        /\ loading st' = false)
       /\ match outcome with
          | Found l => tracks st' = l /\ error st' = error st2
          | NotFound => tracks st' = tracks st2 /\ error st' = albumNotFound
          | ProviderError m =>
              tracks st' = tracks st2 /\ error st' = m /\ m <> []
          end
       /\ (errorShown st2 = false -> tracksShown st2 = false ->
           (tracksShown st' = true <-> exists t l, outcome = Found (t :: l))
           /\ (errorShown st' = true
               <-> outcome = NotFound \/ exists m, outcome = ProviderError m)
           /\ errorShown st' && tracksShown st' = false).
Proof.
  intros Hk Ha Hb outcome; subst outcome.
  split; [repeat split|]; split.
  - unfold fetchTracks; rewrite !truthy_trim, Hk, Ha, Hb; reflexivity.
  - intros st2 st'; subst st'.
    destruct (lookupTracks typeError fetch (apiKey st) (artist st) (album st))
      as [l| |m] eqn:E; unfold tracksShown, errorShown; simpl.
    + split; [auto|]; split; [auto|]; intros He Ht.
      unfold errorShown in He; rewrite He.
      split; [|split; [|reflexivity]].
      * destruct l as [|t l]; simpl; split; try discriminate; eauto.
        intros [t [l' H]]; discriminate.
      * split; [discriminate|intros [H | [m H]]; discriminate].
    + split; [auto|]; split; [auto|]; intros He Ht.
      unfold tracksShown in Ht; rewrite Ht.
      split; [|split; [|reflexivity]].
      * split; [discriminate|intros [t [l H]]; discriminate].
      * split; auto.
    + apply lookup_error_nonempty in E.
      split; [auto|]; split; [auto|]; intros He Ht.
      unfold tracksShown in Ht; rewrite Ht.
      split; [|split].
      * split; [discriminate|intros [t [l H]]; discriminate].
      * destruct m; [congruence|]; split; eauto.
      * apply andb_false_r.
Qed.

Lemma lookup_in_two_halves_witness :
  fetchTracks (fun _ => [])
    (fun _ => Response true (Json (answer (lit "1. Help!"))))
    (mkState (lit "key") false (lit "The Beatles") (lit "Help!")
             [] false (lit "old error"))
  = finishLookup
      (lookupTracks (fun _ => [])
         (fun _ => Response true (Json (answer (lit "1. Help!"))))
         (lit "key") (lit "The Beatles") (lit "Help!"))
      (beginLookup
         (mkState (lit "key") false (lit "The Beatles") (lit "Help!")
                  [] false (lit "old error"))).
Proof.
  apply (@lookup_in_two_halves (fun _ => [])
           (fun _ => Response true (Json (answer (lit "1. Help!"))))
           (mkState (lit "key") false (lit "The Beatles") (lit "Help!")
                    [] false (lit "old error"))); reflexivity.
Defined.

(** Two lookups that overlap can leave both the error and the tracks on
    the page: the second half of one does not undo what the second half
    of the other has set. *)
Lemma overlapping_lookups_show_both st l t :
  let st' := finishLookup (Found (t :: l)) (finishLookup NotFound st) in
  errorShown st' = true /\ tracksShown st' = true.
Proof. split; reflexivity. Qed.

(** ** Texts put together *)

Lemma split_app a b : split (a ++ LF :: b) = split a ++ split b.
Proof.
  induction a as [|c a IH]; simpl; [reflexivity|].
  destruct (c =? LF)%N; [now rewrite IH|].
  rewrite IH; destruct (split a) eqn:E; [now apply split_nonempty in E|].
  reflexivity.
Qed.

Lemma mapi_from_app (A B : Type) (f : A -> nat -> B) l1 : forall i l2,
  mapi_from i f (l1 ++ l2)
  = mapi_from i f l1 ++ mapi_from (i + length l1) f l2.
Proof.
  induction l1 as [|x l1 IH]; intros i l2; simpl.
  - now rewrite Nat.add_0_r.
  - now rewrite IH, Nat.add_succ_r.
Qed.

Lemma name_parseLine_any_index line i j :
  name (parseLine line i) = name (parseLine line j).
Proof.
  unfold parseLine; destruct (matchLine (trim line)) as [[d r]|]; reflexivity.
Qed.

Lemma map_name_mapi_any_index l : forall i j,
  map name (mapi_from i parseLine l) = map name (mapi_from j parseLine l).
Proof.
  induction l as [|x l IH]; intros i j; simpl; [reflexivity|].
  now rewrite (name_parseLine_any_index x i j), (IH (S i) (S j)).
Qed.

(** More lines after a text leave the tracks of the text as they are
    and add, in order, tracks with the names of the added lines. *)
Theorem tracks_of_appended_lines a b :
  exists added,
    trackList (a ++ LF :: b) = trackList a ++ added
    /\ map name added = map name (trackList b).
Proof.
  exists (mapi_from (length (retained a)) parseLine (retained b)).
  rewrite !trackList_unfiltered; unfold mapi, retained.
  rewrite split_app, filter_app, mapi_from_app; split; [reflexivity|].
  apply map_name_mapi_any_index.
Qed.

(** ** Instances *)

Lemma track_names_trimmed_single_line_witness :
  Forall (fun t => trim (name t) = name t /\ ~ In LF (name t))
         (trackList (lit " 1.  Help! " ++ [LF] ++ lit "  The Night Before")).
Proof.
  exact (track_names_trimmed_single_line
           (lit " 1.  Help! " ++ [LF] ++ lit "  The Night Before")).
Defined.

Lemma trackNames_nonempty_trimmed_witness :
  Forall (fun n => n <> [] /\ trim n = n /\ ~ In LF n)
         (trackNames (lit "1. " ++ [LF] ++ lit " 2.  Help! ")).
Proof.
  exact (trackNames_nonempty_trimmed (lit "1. " ++ [LF] ++ lit " 2.  Help! ")).
Defined.

Lemma trackNames_drops_numbering_only_witness :
  trim (stripNumbering (lit "1. ")) = []
  <-> exists d w, lit "1. " = d ++ DOT :: w /\ d <> []
                  /\ forallb isDigit d = true /\ blank w = true.
Proof.
  apply (proj1 (trackNames_drops_numbering_only
                  (lit "1. " ++ [LF] ++ lit "2. Help!"))).
  left; reflexivity.
Defined.

Lemma prompt_is_ambiguous_witness :
  buildPrompt (lit "Abba" ++ [QUOTE] ++ lit " by " ++ lit "Queen") (lit "Jazz")
  = buildPrompt (lit "Queen") (lit "Jazz" ++ [QUOTE] ++ lit " by " ++ lit "Abba")
  /\ lit "Jazz" <> lit "Jazz" ++ [QUOTE] ++ lit " by " ++ lit "Abba".
Proof.
  exact (prompt_is_ambiguous (lit "Jazz") (lit "Abba") (lit "Queen")).
Defined.
